(** * llm_feeder: multi-source text aggregation for a chat-completion request

    A shallow embedding of [Tehtava4/llm_feeder.py] and the properties of
    its pipeline: content loading, normalisation, truncation, prompt
    assembly, the model call and the top-level error handler.

    Python values are modelled as follows.
    - [str] is a sequence of Unicode code points: [list N].
    - [bytes] is a sequence of octets: [list N] with every element below 256.
    - [int] is unbounded: [Z] (and [nat] for the loop counter of [enumerate]).
    - [None]-or-value is [option].
    - An exception aborts the computation: [result].
    - Everything the program obtains from outside (the file system, the
      optional packages, the environment, the remote model) is a field of
      the record [World]. *)

From Stdlib Require Import NArith ZArith Lia Ascii String Decimal.
From stdpp Require Import base tactics option list.

Local Open Scope N_scope.
Local Open Scope list_scope.

(** ** Python's built-in string operations *)

Module Py.

Abbreviation char := N (only parsing).
Abbreviation str := (list N) (only parsing).

(** A literal of the source, one code point per character. *)
Definition lit (s : string) : str :=
  List.map N_of_ascii (list_ascii_of_string s).

Definition LF : char := 10.
Definition CR : char := 13.

(** [str.isspace] on one code point: the table of CPython's
    [_PyUnicode_IsWhitespace], which [str.strip()] uses. *)
Definition isspace (c : char) : bool :=
  ((9 <=? c) && (c <=? 13)) || ((28 <=? c) && (c <=? 32))
  || (c =? 0x85) || (c =? 0xA0) || (c =? 0x1680)
  || ((0x2000 <=? c) && (c <=? 0x200A))
  || (c =? 0x2028) || (c =? 0x2029) || (c =? 0x202F)
  || (c =? 0x205F) || (c =? 0x3000).

(** The line boundaries of [str.splitlines]: CPython's
    [_PyUnicode_IsLinebreak]. *)
Definition islinebreak (c : char) : bool :=
  ((10 <=? c) && (c <=? 13)) || ((28 <=? c) && (c <=? 30))
  || (c =? 0x85) || (c =? 0x2028) || (c =? 0x2029).

Fixpoint lstrip (s : str) : str :=
  match s with
  | c :: s' => if isspace c then lstrip s' else s
  | [] => []
  end.

Definition rstrip (s : str) : str := reverse (lstrip (reverse s)).

(** [s.strip()] *)
Definition strip (s : str) : str := rstrip (lstrip s).

(** [s.splitlines()]: [cur] holds the characters of the line being read,
    last one first.  A line boundary closes the line; a carriage return
    followed by a line feed is one boundary; nothing is produced for the
    empty remainder after the last boundary. *)
Fixpoint splitlines_from (cur : str) (s : str) : list str :=
  match s with
  | [] => match cur with [] => [] | _ => [reverse cur] end
  | c :: s' =>
      if islinebreak c then
        if c =? CR then
          match s' with
          | d :: s'' =>
              if d =? LF then reverse cur :: splitlines_from [] s''
              else reverse cur :: splitlines_from [] s'
          | [] => reverse cur :: splitlines_from [] s'
          end
        else reverse cur :: splitlines_from [] s'
      else splitlines_from (c :: cur) s'
  end.

Definition splitlines (s : str) : list str := splitlines_from [] s.

(** [sep.join(parts)] *)
Fixpoint join (sep : str) (parts : list str) : str :=
  match parts with
  | [] => []
  | [p] => p
  | p :: ps => p ++ sep ++ join sep ps
  end.

(** [s.startswith(prefix)] *)
Fixpoint startswith (s prefix : str) {struct prefix} : bool :=
  match prefix, s with
  | [], _ => true
  | p :: prefix', c :: s' => (c =? p) && startswith s' prefix'
  | _ :: _, [] => false
  end.

(** [needle in hay] *)
Fixpoint contains (hay needle : str) : bool :=
  startswith hay needle
  || match hay with
     | [] => false
     | _ :: hay' => contains hay' needle
     end.

(** [len(s)] *)
Definition len (s : str) : Z := Z.of_nat (length s).

(** [s[:k]]: a negative bound counts from the end and is clamped at 0. *)
Definition slice_to (s : str) (k : Z) : str :=
  if (k <? 0)%Z then take (Z.to_nat (Z.max 0 (len s + k))) s
  else take (Z.to_nat k) s.

(** [x or default] on strings: the empty string is falsy. *)
Definition str_or (x default : str) : str :=
  match x with [] => default | _ => x end.

(** [x or default] on [str | None]. *)
Definition opt_or (x : option str) (default : str) : str :=
  match x with
  | Some s => str_or s default
  | None => default
  end.

(** [str(n)] for a non-negative [int]: decimal digits, most significant
    first. *)
Fixpoint digits (d : Decimal.uint) : str :=
  match d with
  | Nil => []
  | D0 d => 48 :: digits d
  | D1 d => 49 :: digits d
  | D2 d => 50 :: digits d
  | D3 d => 51 :: digits d
  | D4 d => 52 :: digits d
  | D5 d => 53 :: digits d
  | D6 d => 54 :: digits d
  | D7 d => 55 :: digits d
  | D8 d => 56 :: digits d
  | D9 d => 57 :: digits d
  end.

Definition str_of_nat (n : nat) : str := digits (Nat.to_uint n).

(** [s.lower()].  Only what decides the dispatch on file extensions is
    tabulated: the ASCII capitals, and the two code points outside ASCII
    whose lower case contains an ASCII letter (KELVIN SIGN, and LATIN
    CAPITAL LETTER I WITH DOT ABOVE).  Every other code point is left as
    it is; Unicode maps it to a code point outside ASCII, which no
    extension tested by [load_file] contains. *)
Definition lower_char (c : char) : str :=
  if (65 <=? c) && (c <=? 90) then [c + 32]
  else if c =? 0x212A then [107]
  else if c =? 0x130 then [105; 0x307]
  else [c].

Definition lower (s : str) : str := concat (List.map lower_char s).

(** [enumerate(l, start)] *)
Fixpoint enumerate {A} (start : nat) (l : list A) : list (nat * A) :=
  match l with
  | [] => []
  | x :: l' => (start, x) :: enumerate (S start) l'
  end.

End Py.

(** ** Exceptions *)

Module Exc.
Import Py.

(** An exception raised inside a library call: its class name and its
    message, [str(exc)]. *)
Record LibError := { err_class : str; err_text : str }.

(** The exceptions of the program: the three classes it raises itself, each
    with the message it is given, and whatever a library call raises. *)
Inductive exception :=
| FileNotFoundError (msg : str)
| ValueError (msg : str)
| RuntimeError (msg : str)
| Raised (e : LibError).

(** [str(exc)] *)
Definition exc_str (e : exception) : str :=
  match e with
  | FileNotFoundError msg | ValueError msg | RuntimeError msg => msg
  | Raised e => err_text e
  end.

Inductive result (A : Type) :=
| Ok (a : A)
| Raise (e : exception).
Arguments Ok {A} a.
Arguments Raise {A} e.

Definition bind {A B} (r : result A) (k : A -> result B) : result B :=
  match r with
  | Ok a => k a
  | Raise e => Raise e
  end.

#[global] Instance result_ret : MRet result := @Ok.
#[global] Instance result_bind : MBind result := fun A B k r => bind r k.

(** The outcome of a library call, lifted into the program. *)
Definition call {A} (r : LibError + A) : result A :=
  match r with
  | inr a => Ok a
  | inl e => Raise (Raised e)
  end.

End Exc.

(** ** The UTF-8 codec *)

Module Utf8.
Import Py Exc.

(** The [errors] argument of [bytes.decode] and [Path.read_text]. *)
Inductive errors := Strict | Ignore | Replace.

Definition is_cont (b : N) : bool := (0x80 <=? b) && (b <=? 0xBF).

(** The second byte of a three-byte sequence: no overlong form after E0, no
    surrogate after ED. *)
Definition second_of_3 (b0 b1 : N) : bool :=
  if b0 =? 0xE0 then (0xA0 <=? b1) && (b1 <=? 0xBF)
  else if b0 =? 0xED then (0x80 <=? b1) && (b1 <=? 0x9F)
  else is_cont b1.

(** The second byte of a four-byte sequence: no overlong form after F0,
    nothing above U+10FFFF after F4. *)
Definition second_of_4 (b0 b1 : N) : bool :=
  if b0 =? 0xF0 then (0x90 <=? b1) && (b1 <=? 0xBF)
  else if b0 =? 0xF4 then (0x80 <=? b1) && (b1 <=? 0x8F)
  else is_cont b1.

Definition low6 (b : N) : N := N.land b 0x3F.

Definition cp2 (b0 b1 : N) : N :=
  N.lor (N.shiftl (N.land b0 0x1F) 6) (low6 b1).
Definition cp3 (b0 b1 b2 : N) : N :=
  N.lor (N.shiftl (N.land b0 0x0F) 12) (N.lor (N.shiftl (low6 b1) 6) (low6 b2)).
Definition cp4 (b0 b1 b2 b3 : N) : N :=
  N.lor (N.shiftl (N.land b0 0x07) 18)
    (N.lor (N.shiftl (low6 b1) 12) (N.lor (N.shiftl (low6 b2) 6) (low6 b3))).

(** The reasons that the codec gives for an undecodable run. *)
Inductive reason := InvalidStart | InvalidContinuation | UnexpectedEnd.

Definition reason_text (r : reason) : str :=
  match r with
  | InvalidStart => lit "invalid start byte"
  | InvalidContinuation => lit "invalid continuation byte"
  | UnexpectedEnd => lit "unexpected end of data"
  end.

(** [%02x] of an octet. *)
Definition hex_digit (d : N) : N := if d <? 10 then 48 + d else 87 + d.
Definition hex2 (b : N) : str := [hex_digit (N.shiftr b 4); hex_digit (N.land b 15)].

(** The [UnicodeDecodeError] for the run of [len] undecodable bytes that
    begins with the byte [b0] at position [start]; its text is the one of
    [UnicodeDecodeError.__str__]. *)
Definition decode_error (b0 : N) (start len : nat) (r : reason) : exception :=
  Raised
    {| err_class := lit "UnicodeDecodeError";
       err_text :=
         if (len =? 1)%nat then
           lit "'utf-8' codec can't decode byte 0x" ++ hex2 b0
           ++ lit " in position " ++ str_of_nat start ++ lit ": " ++ reason_text r
         else
           lit "'utf-8' codec can't decode bytes in position " ++ str_of_nat start
           ++ lit "-" ++ str_of_nat (start + len - 1) ++ lit ": " ++ reason_text r |}.

(** A decoded code point in front of the rest. *)
Definition emit (c : N) (rest : result str) : result str :=
  bind rest (fun t => Ok (c :: t)).

(** An undecodable run of [len] bytes at position [start] in front of the
    rest: [strict] raises, [ignore] drops the run, [replace] puts U+FFFD in
    its place. *)
Definition bad (e : errors) (b0 : N) (start len : nat) (r : reason)
    (rest : result str) : result str :=
  match e with
  | Strict => Raise (decode_error b0 start len r)
  | Ignore => rest
  | Replace => emit 0xFFFD rest
  end.

(** Decoding from position [pos] on, as CPython decodes: an undecodable run
    is the lead byte together with the continuation bytes that were still
    valid after it, and decoding resumes at the byte that broke the
    sequence; a sequence cut short by the end of the data is a run up to
    that end. *)
Fixpoint decode_at (e : errors) (pos : nat) (bs : list N) {struct bs} : result str :=
  match bs with
  | [] => Ok []
  | b0 :: r0 =>
      if b0 <? 0x80 then emit b0 (decode_at e (pos + 1) r0)
      else if b0 <? 0xC2 then bad e b0 pos 1 InvalidStart (decode_at e (pos + 1) r0)
      else if b0 <? 0xE0 then
        match r0 with
        | b1 :: r1 =>
            if is_cont b1 then emit (cp2 b0 b1) (decode_at e (pos + 2) r1)
            else bad e b0 pos 1 InvalidContinuation (decode_at e (pos + 1) r0)
        | [] => bad e b0 pos 1 UnexpectedEnd (decode_at e (pos + 1) r0)
        end
      else if b0 <? 0xF0 then
        match r0 with
        | b1 :: r1 =>
            if second_of_3 b0 b1 then
              match r1 with
              | b2 :: r2 =>
                  if is_cont b2 then emit (cp3 b0 b1 b2) (decode_at e (pos + 3) r2)
                  else bad e b0 pos 2 InvalidContinuation (decode_at e (pos + 2) r1)
              | [] => bad e b0 pos 2 UnexpectedEnd (decode_at e (pos + 2) r1)
              end
            else bad e b0 pos 1 InvalidContinuation (decode_at e (pos + 1) r0)
        | [] => bad e b0 pos 1 UnexpectedEnd (decode_at e (pos + 1) r0)
        end
      else if b0 <? 0xF5 then
        match r0 with
        | b1 :: r1 =>
            if second_of_4 b0 b1 then
              match r1 with
              | b2 :: r2 =>
                  if is_cont b2 then
                    match r2 with
                    | b3 :: r3 =>
                        if is_cont b3 then
                          emit (cp4 b0 b1 b2 b3) (decode_at e (pos + 4) r3)
                        else
                          bad e b0 pos 3 InvalidContinuation (decode_at e (pos + 3) r2)
                    | [] => bad e b0 pos 3 UnexpectedEnd (decode_at e (pos + 3) r2)
                    end
                  else bad e b0 pos 2 InvalidContinuation (decode_at e (pos + 2) r1)
              | [] => bad e b0 pos 2 UnexpectedEnd (decode_at e (pos + 2) r1)
              end
            else bad e b0 pos 1 InvalidContinuation (decode_at e (pos + 1) r0)
        | [] => bad e b0 pos 1 UnexpectedEnd (decode_at e (pos + 1) r0)
        end
      else bad e b0 pos 1 InvalidStart (decode_at e (pos + 1) r0)
  end.

(** [bs.decode("utf-8", errors)] *)
Definition decode (e : errors) (bs : list N) : result str := decode_at e 0 bs.

(** Text mode with [newline=None]: on input, a carriage return followed by a
    line feed, and a lone carriage return, are both read as a line feed. *)
Fixpoint universal_newlines (s : str) : str :=
  match s with
  | [] => []
  | c :: s' =>
      if c =? CR then
        match s' with
        | d :: s'' =>
            if d =? LF then LF :: universal_newlines s''
            else LF :: universal_newlines s'
        | [] => LF :: universal_newlines s'
        end
      else c :: universal_newlines s'
  end.

End Utf8.

(** ** The outside world *)

Module Env.
Import Py Exc.

(** The parsed command line: the [argparse.Namespace] of [parse_args]. *)
Record Args := {
  inputs : list str;
  query : option str;
  output : option str;
  model : str;
  max_chars : Z
}.

(** A chat completion: [response.choices], each choice with its [message]
    (or [None]) and the message with its [content] (or [None]). *)
Record Completion := { choices : list (option (option str)) }.

(** How an operation that writes a text ends: it completes, or it breaks
    with an exception, having left its target untouched ([None]) or holding
    some part of the text ([Some part]: for a file, created or truncated
    and filled that far; for a stream, what reached it). *)
Inductive written :=
| Done
| Broken (e : LibError) (left : option str).

(** What the program reads from and does to its surroundings.  A path
    argument is always the string of a resolved path. *)
Record World := {
  (** [sys.argv[1:]] *)
  sys_argv_tail : list str;
  (** The parser built by [parse_args] applied to an argument vector: the
      namespace, or the status of the [SystemExit] that [argparse] raises
      on a malformed command line. *)
  argparse : list str -> Z + Args;
  (** [str(Path(raw).expanduser().resolve())], or the exception that
      expanding or resolving raises (no home directory for [~user], an
      embedded null character, a loop of symbolic links). *)
  resolve : str -> LibError + str;
  (** [path.exists()], or the [OSError] that it lets through. *)
  path_exists : str -> LibError + bool;
  (** The octets of the file at a path, or the [OSError] of opening or
      reading it. *)
  read_bytes : str -> LibError + list N;
  (** The rows that iterating [csv.reader] yields for the file at a path
      opened as UTF-8 text with [newline=""], or the exception that ends
      the iteration: that of opening or reading the file, of decoding it
      (the file is decoded as it is read) or of parsing it, whichever
      comes first. *)
  csv_rows : str -> LibError + list (list str);
  (** Whether [docx] can be imported; [paragraph.text] for each paragraph
      of [Document(path)]. *)
  has_docx : bool;
  docx_paragraphs : str -> LibError + list str;
  (** Whether [PyPDF2] can be imported; [page.extract_text()] for each page
      of [PdfReader(path)]. *)
  has_pypdf2 : bool;
  pdf_pages : str -> LibError + list (option str);
  (** Whether [requests] and [bs4] can be imported; the visible text of the
      page at a URL: the request with its timeout, [raise_for_status], the
      parse, the removal of script, style and noscript elements, and
      [get_text(separator="\n")]. *)
  has_requests_bs4 : bool;
  visible_text : str -> LibError + str;
  (** Whether [openai] can be imported; [os.environ.get("OPENAI_API_KEY")];
      the reply of the chat-completion endpoint to a request made with a
      key, for a model, with a system and a user message. *)
  has_openai : bool;
  environ_api_key : option str;
  chat_completions_create : str -> str -> str -> str -> LibError + Completion;
  (** [path.write_text(text, encoding="utf-8")] *)
  write_text : str -> str -> written;
  (** [print(text)] on standard output. *)
  print_stdout : str -> written
}.

(** What the program does that can be observed from outside, in order: the
    construction of the client, the request (its temperature is a constant
    of the source), a file written, one [print] to either stream, and what
    a write or a [print] that broke has left behind. *)
Inductive event :=
| ClientCreated (api_key : str)
| ChatRequest (model system user : str)
| FileWritten (path text : str)
| Stdout (text : str)
| Stderr (text : str)
| FileLeft (path part : str)
| StdoutLeft (part : str).

(** A computation that leaves a trace of events and returns or raises. *)
Definition io (A : Type) : Type := list event * result A.

Definition io_ret {A} (a : A) : io A := ([], Ok a).

Definition io_bind {A B} (m : io A) (k : A -> io B) : io B :=
  match m with
  | (tr, Ok a) => let (tr', r) := k a in (tr ++ tr', r)
  | (tr, Raise e) => (tr, Raise e)
  end.

Definition io_raise {A} (e : exception) : io A := ([], Raise e).

Definition io_lift {A} (r : result A) : io A := ([], r).

Definition io_event (ev : event) : io unit := ([ev], Ok tt).

#[global] Instance io_mret : MRet io := @io_ret.
#[global] Instance io_mbind : MBind io := fun A B k m => io_bind m k.

(** How [main] ends: it returns a status, or [SystemExit] leaves it. *)
Inductive outcome :=
| Returned (status : Z)
| SystemExit (status : Z).

End Env.

(** ** The program *)

Module Feeder.
Import Py Exc Utf8 Env.

Record SourceContent := { label : str; text : str }.

(** [Path.suffix]: the last component of the path from its last dot on,
    unless that dot is its first or its last character. *)
Fixpoint last_component_from (cur : str) (p : str) : str :=
  match p with
  | [] => reverse cur
  | c :: p' =>
      if c =? 47 then last_component_from [] p'
      else last_component_from (c :: cur) p'
  end.

Definition path_name (p : str) : str := last_component_from [] p.

Fixpoint rfind_from (i : nat) (c : char) (s : str) (found : option nat)
  : option nat :=
  match s with
  | [] => found
  | d :: s' => rfind_from (S i) c s' (if d =? c then Some i else found)
  end.

Definition path_suffix (p : str) : str :=
  let name := path_name p in
  match rfind_from 0 46 name None with
  | Some i =>
      if (0 <? i)%nat && (i <? length name - 1)%nat then drop i name else []
  | None => []
  end.

(** [path.read_text(encoding="utf-8", errors=...)] *)
Definition read_text (w : World) (path : str) (e : errors) : result str :=
  bs ← call (read_bytes w path);
  s ← decode e bs;
  mret (universal_newlines s).

Definition load_url (w : World) (url : str) : result str :=
  if negb (has_requests_bs4 w) then
    Raise (RuntimeError
             (lit "Fetching URLs requires installing requests and beautifulsoup4"))
  else call (visible_text w url).

Definition read_csv (w : World) (path : str) : result str :=
  table ← call (csv_rows w path);
  let rows :=
    foldl (fun rows row => rows ++ [join (lit ", ") (List.map strip row)])
      [] table in
  mret (join [LF] rows).

Definition read_docx (w : World) (path : str) : result str :=
  if negb (has_docx w) then
    Raise (RuntimeError (lit "Reading DOCX files requires installing python-docx"))
  else
    ps ← call (docx_paragraphs w path);
    let paragraphs :=
      List.map strip (filter (fun p => strip p <> []) ps) in
    mret (join [LF] paragraphs).

Definition read_pdf (w : World) (path : str) : result str :=
  if negb (has_pypdf2 w) then
    Raise (RuntimeError (lit "Reading PDF files requires installing PyPDF2"))
  else
    reader_pages ← call (pdf_pages w path);
    let pages :=
      foldl (fun pages '(index, page) =>
               let text := opt_or page [] in
               match strip text with
               | [] => pages
               | _ =>
                   let header := lit "[Page " ++ str_of_nat index ++ lit "]" in
                   pages ++ [header ++ [LF] ++ strip text]
               end)
        [] (enumerate 1 reader_pages) in
    mret (join [LF; LF] pages).

(** Membership of a suffix in a set literal of the source. *)
Definition suffix_in (suffix : str) (set : list string) : bool :=
  bool_decide (suffix ∈ List.map lit set).

Definition load_file (w : World) (path : str) : result str :=
  let suffix := lower (path_suffix path) in
  if suffix_in suffix [".txt"; ".md"; ".rst"]%string then read_text w path Strict
  else if suffix_in suffix [".csv"]%string then read_csv w path
  else if suffix_in suffix [".docx"]%string then read_docx w path
  else if suffix_in suffix [".pdf"]%string then read_pdf w path
  else read_text w path Ignore.

Definition normalize_text (text : str) : str :=
  let lines := List.map strip (splitlines text) in
  let compact := join [LF] (filter (fun line => line <> []) lines) in
  compact.

(** The body of the loop of [load_sources] for the input [raw], up to the
    point where [text] and [label] are both set. *)
Definition load_raw (w : World) (raw : str) : result (str * str) :=
  if startswith raw (lit "http://") || startswith raw (lit "https://") then
    text ← load_url w raw;
    mret (text, raw)
  else
    path ← call (resolve w raw);
    found ← call (path_exists w path);
    if negb found then
      Raise (FileNotFoundError (lit "Input not found: " ++ raw))
    else
      text ← load_file w path;
      mret (text, path).

(** The loop of [load_sources]: [sources] is the list built so far. *)
Fixpoint load_sources_loop (w : World) (max_chars : Z) (inputs : list str)
    (sources : list SourceContent) : result (list SourceContent) :=
  match inputs with
  | [] => Ok sources
  | raw :: inputs' =>
      '(text, label) ← load_raw w raw;
      let text := normalize_text text in
      let text :=
        if negb (max_chars =? 0)%Z && (len text >? max_chars)%Z
        then slice_to text max_chars else text in
      match strip text with
      | [] => Raise (ValueError (lit "No textual content extracted from " ++ raw))
      | _ =>
          load_sources_loop w max_chars inputs'
            (sources ++ [{| label := label; text := text |}])
      end
  end.

Definition load_sources (w : World) (inputs : list str) (max_chars : Z)
  : result (list SourceContent) :=
  load_sources_loop w max_chars inputs [].

Definition default_instruction : str :=
  lit "Summarize the following sources. Highlight key points and common themes.".

Definition build_prompt (query : option str) (sources : list SourceContent) : str :=
  let instruction := opt_or query default_instruction in
  let context_parts :=
    foldl (fun context_parts '(idx, source) =>
             context_parts
               ++ [lit "Source " ++ str_of_nat idx ++ lit ": " ++ label source
                   ++ [LF] ++ text source])
      [] (enumerate 1 sources) in
  let context := join ([LF; LF] ++ lit "---" ++ [LF; LF]) context_parts in
  instruction ++ [LF; LF] ++ lit "Context:" ++ [LF] ++ context.

Definition system_message : str :=
  lit "You are a helpful assistant that works with curated multi-source context.".

Definition index_error : exception :=
  Raised {| err_class := lit "IndexError";
            err_text := lit "list index out of range" |}.

Definition call_llm (w : World) (prompt : str) (model : str) : io str :=
  if negb (has_openai w) then
    io_raise (RuntimeError
      (lit "This tool requires the openai package. Install it with 'pip install openai'."))
  else
    let api_key := environ_api_key w in
    match opt_or api_key [] with
    | [] =>
        io_raise (RuntimeError
          (lit "Set the OPENAI_API_KEY environment variable to use this tool."))
    | api_key =>
        io_event (ClientCreated api_key);;
        io_event (ChatRequest model system_message prompt);;
        response ← io_lift (call (chat_completions_create w api_key model
                                     system_message prompt));
        match choices response with
        | [] => io_raise index_error
        | choice :: _ =>
            let content :=
              match choice with
              | Some message => message
              | None => Some []
              end in
            match opt_or content [] with
            | [] => io_raise (RuntimeError (lit "LLM returned an empty response."))
            | content => mret (strip content)
            end
        end
    end.

Definition write_output (w : World) (text : str) (output_path : option str)
  : io unit :=
  match opt_or output_path [] with
  | [] =>
      match print_stdout w text with
      | Done => io_event (Stdout text)
      | Broken e None => io_raise (Raised e)
      | Broken e (Some part) => io_event (StdoutLeft part);; io_raise (Raised e)
      end
  | output_path =>
      path ← io_lift (call (resolve w output_path));
      match write_text w path text with
      | Done => io_event (FileWritten path text)
      | Broken e None => io_raise (Raised e)
      | Broken e (Some part) => io_event (FileLeft path part);; io_raise (Raised e)
      end
  end.

Definition parse_args (w : World) (argv : list str) : Z + Args := argparse w argv.

Definition main (w : World) (argv : option (list str)) : list event * outcome :=
  let argv := match argv with
              | Some (a :: l) => a :: l
              | _ => sys_argv_tail w
              end in
  match parse_args w argv with
  | inl status => ([], SystemExit status)
  | inr args =>
      let body : io unit :=
        sources ← io_lift (load_sources w (inputs args) (max_chars args));
        let prompt := build_prompt (query args) sources in
        response_text ← call_llm w prompt (model args);
        write_output w response_text (output args) in
      match body with
      | (tr, Ok _) => (tr, Returned 0)
      | (tr, Raise exc) =>
          (tr ++ [Stderr (lit "error: " ++ exc_str exc)], Returned 1)
      end
  end.

End Feeder.

(** ** Vocabulary of the statements *)

Module Spec.
Import Py Exc Utf8 Env Feeder.

(** Whether an input of [load_sources] is taken as a URL. *)
Definition is_url (raw : str) : bool :=
  startswith raw (lit "http://") || startswith raw (lit "https://").

(** Lines 73 and 74 of [load_sources]: the text after the truncation step. *)
Definition truncated (max_chars : Z) (text : str) : str :=
  if negb (max_chars =? 0)%Z && (len text >? max_chars)%Z
  then slice_to text max_chars else text.

(** The error raised for an input without text. *)
Definition extraction_empty (raw : str) : exception :=
  ValueError (lit "No textual content extracted from " ++ raw).

(** One turn of the loop of [load_sources] taken alone: the source built
    for [raw], or the exception that ends the loop. *)
Definition load_one (w : World) (max_chars : Z) (raw : str)
  : result SourceContent :=
  '(text, label) ← load_raw w raw;
  let text := truncated max_chars (normalize_text text) in
  match strip text with
  | [] => Raise (extraction_empty raw)
  | _ => Ok {| label := label; text := text |}
  end.

(** A text with at least one character that is not white space. *)
Definition has_visible (s : str) : Prop :=
  exists c, c ∈ s /\ isspace c = false.

(** [needle] occurs in [hay] at offset [p]. *)
Definition occurs_at (p : nat) (needle hay : str) : Prop :=
  take (length needle) (drop p hay) = needle.

(** The delimiter between two source blocks. *)
Definition delimiter : str := [LF; LF] ++ lit "---" ++ [LF; LF].

(** The first line of the block of the source with ordinal [i]. *)
Definition header (i : nat) (lbl : str) : str :=
  lit "Source " ++ str_of_nat i ++ lit ": " ++ lbl.

(** The block of the source with ordinal [i]. *)
Definition block (i : nat) (s : SourceContent) : str :=
  header i (label s) ++ [LF] ++ text s.

(** The prompt as the specification words it: the instruction, a blank
    line, and the blocks joined by the delimiter, with nothing between the
    blank line and the first block. *)
Definition spec_prompt (instruction : str) (sources : list SourceContent) : str :=
  instruction ++ [LF; LF] ++ join delimiter (imap (fun i s => block (S i) s) sources).

(** The prompt as [build_prompt] lays it out: the instruction, a blank
    line, the line [Context:], and the blocks joined by the delimiter. *)
Definition layout (instruction : str) (sources : list SourceContent) : str :=
  instruction ++ [LF; LF] ++ lit "Context:" ++ [LF]
  ++ join delimiter (imap (fun i s => block (S i) s) sources).

(** The extensions that [load_file] gives a reader of their own. *)
Definition recognized : list string :=
  [".txt"; ".md"; ".rst"; ".csv"; ".docx"; ".pdf"]%string.

(** The two messages of [call_llm] raised before a client exists. *)
Definition missing_package : exception :=
  RuntimeError
    (lit "This tool requires the openai package. Install it with 'pip install openai'.").
Definition missing_credential : exception :=
  RuntimeError (lit "Set the OPENAI_API_KEY environment variable to use this tool.").











(** A line in the sense of [splitlines]: no line boundary inside. *)
Definition unbroken (line : str) : Prop :=
  Forall (fun c => islinebreak c = false) line.

(** The lines that [normalize_text] keeps: the stripped lines of the text
    that are not empty, in the order of the text. *)
Definition kept_lines (s : str) : list str :=
  filter (fun line => line <> []) (List.map strip (splitlines s)).

End Spec.

(** ** A small concrete world *)

Module Demo.
Import Py Exc Utf8 Env Feeder.

(** The regular files of the demonstration directory [/work]. *)
Definition files : list (str * list N) :=
  [ (lit "/work/notes.txt", lit "Hello" ++ [LF; LF] ++ lit "World");
    (lit "/work/blank.txt", lit "   " ++ [LF; 9; LF]);
    (lit "/work/blob.bin", [0x41; 0xFF; 0x42]) ].

Fixpoint lookup_file (p : str) (fs : list (str * list N)) : option (list N) :=
  match fs with
  | [] => None
  | (q, bs) :: fs' => if bool_decide (p = q) then Some bs else lookup_file p fs'
  end.

Definition no_such_file : LibError :=
  {| err_class := lit "FileNotFoundError";
     err_text := lit "[Errno 2] No such file or directory" |}.

Definition unavailable : LibError :=
  {| err_class := lit "RuntimeError"; err_text := lit "unavailable" |}.

Definition no_home : LibError :=
  {| err_class := lit "RuntimeError";
     err_text := lit "Could not determine home directory." |}.

Definition null_character : LibError :=
  {| err_class := lit "ValueError"; err_text := lit "embedded null byte" |}.


(** Resolving in the working directory [/work], without symbolic links and
    without home directories: a path with a null character and a path that
    begins with a tilde cannot be resolved, an absolute path is itself and
    a relative one is taken from [/work]. *)
Definition resolve_in_work (raw : str) : LibError + str :=
  if bool_decide (0 ∈ raw) then inl null_character
  else if startswith raw (lit "~") then inl no_home
  else if startswith raw (lit "/") then inr raw
  else inr (lit "/work/" ++ raw).

(** A world with working directory [/work], no symbolic links, none of the
    optional document packages, a model that answers every request with
    the same reply, and a standard output that behaves as [pr].  A command
    line of plain arguments is taken as the list of inputs with every
    option at its default. *)
Definition world_with (openai : bool) (key : option str) (pr : str -> written)
  : World :=
  {| sys_argv_tail := [];
     argparse := fun argv =>
       match argv with
       | [] => inl 2%Z
       | _ => inr {| inputs := argv; query := None; output := None;
                     model := lit "gpt-4o-mini"; max_chars := 12000 |}
       end;
     resolve := resolve_in_work;
     path_exists := fun p => inr (bool_decide (is_Some (lookup_file p files)));
     read_bytes := fun p =>
       match lookup_file p files with
       | Some bs => inr bs
       | None => inl no_such_file
       end;
     csv_rows := fun _ => inr [];
     has_docx := false;
     docx_paragraphs := fun _ => inl unavailable;
     has_pypdf2 := false;
     pdf_pages := fun _ => inl unavailable;
     has_requests_bs4 := false;
     visible_text := fun _ => inl unavailable;
     has_openai := openai;
     environ_api_key := key;
     chat_completions_create := fun _ _ _ _ =>
       inr {| choices := [Some (Some (lit " Two greetings. "))] |};
     write_text := fun _ _ => Done;
     print_stdout := pr |}.

(** The world whose standard output takes every [print]. *)
Definition world (openai : bool) (key : option str) : World :=
  world_with openai key (fun _ => Done).

(** The same world with its model out of reach. *)
Definition offline : World := world true None.


End Demo.

(** ** Further vocabulary *)

Module Terms.
Import Py Exc Utf8 Env Feeder Spec.

(** The characters of a text that are not white space, in order. *)
Definition visible_chars (s : str) : str :=
  filter (fun c => isspace c = false) s.

(** A text made of white space only. *)
Definition all_space (s : str) : Prop := Forall (fun c => isspace c = true) s.

(** The header that [read_pdf] puts before the text of the page with
    1-based position [index]. *)
Definition page_header (index : nat) : str :=
  lit "[Page " ++ str_of_nat index ++ lit "]".

(** The block that [read_pdf] builds for a page. *)
Definition page_block (index : nat) (page : option str) : str :=
  page_header index ++ [LF] ++ strip (opt_or page []).

(** A page from which no text can be extracted. *)
Definition page_blank (page : option str) : Prop := strip (opt_or page []) = [].

(** The blocks that [read_pdf] builds for the pages of a document whose
    first page has position [index]: none for a blank page. *)
Fixpoint page_blocks (index : nat) (pages : list (option str)) : list str :=
  match pages with
  | [] => []
  | page :: pages' =>
      match strip (opt_or page []) with
      | [] => page_blocks (S index) pages'
      | _ => page_block index page :: page_blocks (S index) pages'
      end
  end.

(** The line that [read_csv] builds for a row. *)
Definition row_line (row : list str) : str := join (lit ", ") (List.map strip row).

(** The three messages of the import guards of the readers, and the
    message of the empty reply. *)
Definition needs_requests : exception :=
  RuntimeError (lit "Fetching URLs requires installing requests and beautifulsoup4").
Definition needs_docx : exception :=
  RuntimeError (lit "Reading DOCX files requires installing python-docx").
Definition needs_pypdf2 : exception :=
  RuntimeError (lit "Reading PDF files requires installing PyPDF2").
Definition empty_reply : exception :=
  RuntimeError (lit "LLM returned an empty response.").

(** The error raised for an input path that does not exist. *)
Definition input_not_found (raw : str) : exception :=
  FileNotFoundError (lit "Input not found: " ++ raw).

(** The lower-cased suffix on which [load_file] dispatches. *)
Definition extension (path : str) : str := lower (path_suffix path).


(** The sum of the lengths of the parts of a list. *)
Definition total_length (parts : list str) : nat :=
  foldr (fun p n => (length p + n)%nat) 0%nat parts.

End Terms.

(** ** A world with documents *)

Module Shelf.
Import Py Exc Utf8 Env Feeder.

Definition files : list (str * list N) :=
  [ (lit "/work/notes.txt", lit "Hello" ++ [LF; LF] ++ lit "World");
    (lit "/work/notes.bak", lit "Hello" ++ [LF; LF] ++ lit "World");
    (lit "/work/table.csv", lit "a, b" ++ [LF] ++ lit "c,d ");
    (lit "/work/REPORT.PDF", lit "%PDF");
    (lit "/work/letter.docx", lit "PK") ].


(** A world with working directory [/work] in which every optional package
    is installed: every table parses to the same two rows, every document
    has the same three paragraphs and every page-description file the
    same four pages, of which the second and the third have no text.  The
    reply goes to the file [reply.txt], and files are written as [wt]
    says. *)
Definition world_with (wt : str -> str -> written) : World :=
  {| sys_argv_tail := [lit "notes.txt"];
     argparse := fun argv =>
       match argv with
       | [] => inl 2%Z
       | _ => inr {| inputs := argv; query := None;
                     output := Some (lit "reply.txt");
                     model := lit "gpt-4o-mini"; max_chars := 12000 |}
       end;
     resolve := Demo.resolve_in_work;
     path_exists := fun p => inr (bool_decide (is_Some (Demo.lookup_file p files)));
     read_bytes := fun p =>
       match Demo.lookup_file p files with
       | Some bs => inr bs
       | None => inl Demo.no_such_file
       end;
     csv_rows := fun _ => inr [[lit "a"; lit " b"]; [lit "c"; lit "d "]];
     has_docx := true;
     docx_paragraphs := fun _ => inr [lit " Title "; lit "   "; lit "Body"];
     has_pypdf2 := true;
     pdf_pages := fun _ =>
       inr [Some (lit "One"); Some (lit "  "); None; Some (lit " Four ")];
     has_requests_bs4 := true;
     visible_text := fun _ => inr (lit " Page " ++ [LF; LF] ++ lit "text");
     has_openai := true;
     environ_api_key := Some (lit "sk-demo");
     chat_completions_create := fun _ _ _ _ =>
       inr {| choices := [Some (Some (lit " Two greetings. "))] |};
     write_text := wt;
     print_stdout := fun _ => Done |}.

(** The world in which every file can be written. *)
Definition world : World := world_with (fun _ _ => Done).


End Shelf.

Import Py Exc Utf8 Env Feeder Spec Terms.

(** * Properties *)

(** ** The model at work *)

Example splitlines_boundaries :
  splitlines (lit "a" ++ [LF] ++ lit "b" ++ [CR; LF; LF] ++ lit "c" ++ [CR])
  = [lit "a"; lit "b"; []; lit "c"].
Proof. reflexivity. Qed.

Example normalize_text_sample :
  normalize_text (lit "  a b  " ++ [LF; LF; CR; LF] ++ [9] ++ lit "c " ++ [LF])
  = lit "a b" ++ [LF] ++ lit "c".
Proof. reflexivity. Qed.

Example decode_euro_sign : decode Strict [0xE2; 0x82; 0xAC] = Ok [0x20AC].
Proof. reflexivity. Qed.

Example decode_truncated_sequence :
  decode Replace [0xE2; 0x82; 0x41] = Ok [0xFFFD; 0x41]
  /\ decode Ignore [0xE2; 0x82; 0x41] = Ok [0x41]
  /\ decode Strict [0xE2; 0x82; 0x41]
     = Raise (decode_error 0xE2 0 2 InvalidContinuation).
Proof. repeat split. Qed.

Example decode_error_messages :
  exc_str (decode_error 0xE2 0 2 InvalidContinuation)
  = lit "'utf-8' codec can't decode bytes in position 0-1: invalid continuation byte"
  /\ decode Strict [0x41; 0xFF; 0x42] = Raise (decode_error 0xFF 1 1 InvalidStart)
  /\ exc_str (decode_error 0xFF 1 1 InvalidStart)
     = lit "'utf-8' codec can't decode byte 0xff in position 1: invalid start byte"
  /\ decode Strict [0x41; 0xF0; 0x9F; 0x98]
     = Raise (decode_error 0xF0 1 3 UnexpectedEnd)
  /\ exc_str (decode_error 0xF0 1 3 UnexpectedEnd)
     = lit "'utf-8' codec can't decode bytes in position 1-3: unexpected end of data".
Proof. repeat split. Qed.

Example path_suffix_samples :
  path_suffix (lit "/work/a.b/notes.TXT") = lit ".TXT"
  /\ lower (path_suffix (lit "/work/a.b/notes.TXT")) = lit ".txt"
  /\ path_suffix (lit "/work/.profile") = []
  /\ path_suffix (lit "/work/a.b/notes") = [].
Proof. repeat split. Qed.

Example build_prompt_two_sources :
  build_prompt None [{| label := lit "A"; text := lit "T" |};
                     {| label := lit "B"; text := lit "U" |}]
  = default_instruction ++ [LF; LF] ++ lit "Context:" ++ [LF]
    ++ lit "Source 1: A" ++ [LF] ++ lit "T"
    ++ [LF; LF] ++ lit "---" ++ [LF; LF]
    ++ lit "Source 2: B" ++ [LF] ++ lit "U".
Proof. reflexivity. Qed.

Example load_sources_stops_at_missing_input :
  load_sources Demo.offline [lit "notes.txt"; lit "absent.txt"] 100
  = Raise (FileNotFoundError (lit "Input not found: absent.txt")).
Proof. vm_compute. reflexivity. Qed.

(** A negative [max_chars] cuts from the end: [text[:max_chars]] can then
    be empty although the normalised text was not. *)
Example load_sources_negative_max_chars :
  load_sources Demo.offline [lit "notes.txt"] (-3)
  = Ok [{| label := lit "/work/notes.txt"; text := lit "Hello" ++ [LF] ++ lit "Wo" |}]
  /\ load_sources Demo.offline [lit "notes.txt"] (-20)
     = Raise (extraction_empty (lit "notes.txt")).
Proof. split; vm_compute; reflexivity. Qed.

Example main_success_trace :
  main (Demo.world true (Some (lit "sk-demo"))) (Some [lit "notes.txt"])
  = ([ClientCreated (lit "sk-demo");
      ChatRequest (lit "gpt-4o-mini") system_message
        (build_prompt None
           [{| label := lit "/work/notes.txt";
               text := lit "Hello" ++ [LF] ++ lit "World" |}]);
      Stdout (lit "Two greetings.")],
     Returned 0).
Proof. vm_compute. reflexivity. Qed.

(** ** Stripping white space *)

Section Strip.

Implicit Types (s t : list N) (c : N).

Lemma lstrip_visible c s : isspace c = false -> lstrip (c :: s) = c :: s.
Proof. intros Hc. simpl. now rewrite Hc. Qed.

Lemma lstrip_head s :
  lstrip s = [] \/ exists c r, lstrip s = c :: r /\ isspace c = false.
Proof.
  induction s as [|c s IH]; [now left|].
  simpl. destruct (isspace c) eqn:Hc; [exact IH|].
  right. now exists c, s.
Qed.

Lemma lstrip_idem s : lstrip (lstrip s) = lstrip s.
Proof.
  destruct (lstrip_head s) as [->|(c & r & -> & Hc)]; [reflexivity|].
  now apply lstrip_visible.
Qed.

Lemma lstrip_snoc_visible s c :
  isspace c = false -> exists v, lstrip (s ++ [c]) = v ++ [c].
Proof.
  intros Hc. induction s as [|d s IH]; simpl.
  - rewrite Hc. now exists [].
  - destruct (isspace d); [exact IH|]. now exists (d :: s).
Qed.

Lemma rstrip_visible c s :
  isspace c = false -> exists r, rstrip (c :: s) = c :: r.
Proof.
  intros Hc. unfold rstrip. rewrite reverse_cons.
  destruct (lstrip_snoc_visible (reverse s) c Hc) as [v ->].
  exists (reverse v). now rewrite reverse_snoc.
Qed.

Lemma rstrip_idem s : rstrip (rstrip s) = rstrip s.
Proof. unfold rstrip. now rewrite reverse_involutive, lstrip_idem. Qed.

(** What [strip] returns is empty or begins with a visible character. *)
Lemma strip_head s :
  strip s = [] \/ exists c r, strip s = c :: r /\ isspace c = false.
Proof.
  unfold strip.
  destruct (lstrip_head s) as [->|(c & r & -> & Hc)]; [now left|].
  right. destruct (rstrip_visible c r Hc) as [r' ->]. now exists c, r'.
Qed.

Lemma strip_idem s : strip (strip s) = strip s.
Proof.
  destruct (strip_head s) as [->|(c & r & E & Hc)]; [reflexivity|].
  unfold strip at 1. rewrite E, (lstrip_visible c r Hc), <- E.
  unfold strip. apply rstrip_idem.
Qed.

(** A text that begins with a visible character is not blank. *)
Lemma strip_visible_head c s : isspace c = false -> strip (c :: s) <> [].
Proof.
  intros Hc. unfold strip. rewrite (lstrip_visible c s Hc).
  now destruct (rstrip_visible c s Hc) as [r ->].
Qed.

Lemma Forall_lstrip (P : N -> Prop) s : Forall P s -> Forall P (lstrip s).
Proof.
  induction 1 as [|c s Hc Hs IH]; simpl; [constructor|].
  destruct (isspace c); [exact IH|now constructor].
Qed.

Lemma Forall_strip (P : N -> Prop) s : Forall P s -> Forall P (strip s).
Proof.
  intros H. unfold strip, rstrip.
  apply Forall_reverse, Forall_lstrip, Forall_reverse, Forall_lstrip, H.
Qed.

(** A text that is not blank has a visible character. *)
Lemma strip_has_visible s : strip s <> [] -> has_visible s.
Proof.
  intros Hne.
  destruct (strip_head s) as [E|(c & r & E & Hc)]; [contradiction|].
  exists c. split; [|exact Hc].
  assert (H : Forall (fun d => d ∈ s) (strip s)).
  { apply Forall_strip, Forall_forall. auto. }
  rewrite E in H. now inversion H.
Qed.

End Strip.

(** ** Splitting into lines and joining back *)

Section Lines.

Implicit Types (s cur line : list N) (ls : list (list N)).

Lemma LF_islinebreak : islinebreak LF = true.
Proof. reflexivity. Qed.

Lemma splitlines_from_unbroken_len n : forall s cur,
  (length s <= n)%nat -> unbroken cur -> Forall unbroken (splitlines_from cur s).
Proof.
  induction n as [|n IH]; intros s cur Hlen Hcur.
  - destruct s; [|simpl in Hlen; lia]. simpl.
    destruct cur; [constructor|].
    constructor; [now apply Forall_reverse|constructor].
  - destruct s as [|c s]; simpl.
    + destruct cur; [constructor|].
      constructor; [now apply Forall_reverse|constructor].
    + simpl in Hlen.
      assert (Hnil : unbroken []) by constructor.
      destruct (islinebreak c) eqn:Hc.
      * destruct (c =? CR); [destruct s as [|d s]; [|destruct (d =? LF)]|];
          (constructor; [now apply Forall_reverse|]);
          apply IH; simpl in *; try lia; exact Hnil.
      * apply IH; [lia|]. now constructor.
Qed.

(** Every line that [splitlines] returns is free of line boundaries. *)
Lemma splitlines_unbroken s : Forall unbroken (splitlines s).
Proof.
  apply (splitlines_from_unbroken_len (length s)); [lia|constructor].
Qed.

(** Reading an unbroken run of characters only extends the current line. *)
Lemma splitlines_from_app line cur s :
  unbroken line ->
  splitlines_from cur (line ++ s) = splitlines_from (reverse line ++ cur) s.
Proof.
  intros H. revert cur. induction H as [|c line Hc _ IH]; intros cur.
  - reflexivity.
  - simpl. rewrite Hc, IH, reverse_cons, <- app_assoc. reflexivity.
Qed.

(** Joining non-empty unbroken lines with a line feed and splitting the
    result gives the lines back. *)
Lemma splitlines_join ls :
  Forall (fun line => line <> [] /\ unbroken line) ls ->
  splitlines (join [LF] ls) = ls.
Proof.
  unfold splitlines.
  induction 1 as [|line ls [Hne Hub] Hls IH]; [reflexivity|].
  destruct ls as [|line' ls].
  - simpl. rewrite <- (app_nil_r line) at 1.
    rewrite splitlines_from_app by exact Hub.
    simpl. rewrite app_nil_r.
    destruct (reverse line) eqn:E.
    + apply (f_equal reverse) in E. rewrite reverse_involutive in E. contradiction.
    + rewrite <- E, reverse_involutive. reflexivity.
  - change (join [LF] (line :: line' :: ls))
      with (line ++ LF :: join [LF] (line' :: ls)).
    rewrite splitlines_from_app by exact Hub.
    simpl splitlines_from. rewrite app_nil_r, reverse_involutive.
    f_equal. exact IH.
Qed.

Lemma normalize_text_join s : normalize_text s = join [LF] (kept_lines s).
Proof. reflexivity. Qed.

Lemma kept_lines_spec s :
  Forall (fun line => (line <> [] /\ unbroken line) /\ strip line = line)
    (kept_lines s).
Proof.
  unfold kept_lines. apply Forall_forall. intros line Hin.
  apply list_elem_of_filter in Hin as [Hne Hin].
  apply list_elem_of_In, in_map_iff in Hin as (l0 & <- & Hin0).
  repeat split; [exact Hne| |apply strip_idem].
  apply Forall_strip.
  pose proof (splitlines_unbroken s) as H.
  rewrite Forall_forall in H. apply H. now apply list_elem_of_In.
Qed.

Lemma filter_map_strip_id ls :
  Forall (fun line => line <> [] /\ strip line = line) ls ->
  filter (fun line => line <> []) (List.map strip ls) = ls.
Proof.
  induction 1 as [|line ls [Hne E] _ IH]; [reflexivity|].
  simpl. rewrite E, filter_cons_True by exact Hne. now rewrite IH.
Qed.

(** The lines of a normalised text are the kept lines of the original. *)
Lemma splitlines_normalize_text s :
  splitlines (normalize_text s) = kept_lines s.
Proof.
  rewrite normalize_text_join. apply splitlines_join.
  eapply Forall_impl; [apply kept_lines_spec|]. now intros line [H _].
Qed.

(** A normalised text is empty or begins with a visible character. *)
Lemma normalize_text_head s :
  normalize_text s = []
  \/ exists c r, normalize_text s = c :: r /\ isspace c = false.
Proof.
  rewrite normalize_text_join.
  pose proof (kept_lines_spec s) as H.
  destruct (kept_lines s) as [|line ls]; [now left|].
  right. inversion H as [|? ? [[Hne _] E] _]; subst.
  destruct (strip_head line) as [E0|(c & r & E1 & Hc)]; [congruence|].
  rewrite E in E1. subst line. exists c.
  destruct ls; simpl; eauto.
Qed.

End Lines.

(** ** The normaliser *)

(** C5.  [normalize_text] is idempotent, and it keeps the non-empty lines in
    their order: the lines of the normalised text are the stripped lines of
    the original that are not empty, in the original order. *)
Theorem normalize_text_idempotent (s : list N) :
  normalize_text (normalize_text s) = normalize_text s
  /\ splitlines (normalize_text s)
     = filter (fun line => line <> []) (List.map strip (splitlines s)).
Proof.
  split; [|apply splitlines_normalize_text].
  rewrite (normalize_text_join (normalize_text s)).
  unfold kept_lines at 1. rewrite splitlines_normalize_text.
  rewrite filter_map_strip_id; [reflexivity|].
  eapply Forall_impl; [apply kept_lines_spec|].
  now intros line [[Hne _] E].
Qed.

(** ** The loop of [load_sources] *)

Section Loader.

Variable w : World.
Variable k : Z.

Implicit Types (raw t lbl : list N) (inputs before after : list (list N))
  (sc : SourceContent) (acc l : list SourceContent) (e : exception).

(** One turn of the loop is [load_one] followed by the rest of the loop. *)
Lemma load_sources_loop_cons raw inputs acc :
  load_sources_loop w k (raw :: inputs) acc =
  bind (load_one w k raw)
    (fun sc => load_sources_loop w k inputs (acc ++ [sc])).
Proof.
  unfold load_one. simpl.
  destruct (load_raw w raw) as [[t lbl]|e]; [|reflexivity].
  simpl. fold (truncated k (normalize_text t)).
  now destruct (strip (truncated k (normalize_text t))).
Qed.

Lemma load_sources_loop_app before inputs acc :
  load_sources_loop w k (before ++ inputs) acc =
  bind (load_sources_loop w k before acc)
    (fun l => load_sources_loop w k inputs l).
Proof.
  revert acc. induction before as [|raw before IH]; intros acc; [reflexivity|].
  rewrite <- app_comm_cons, !load_sources_loop_cons.
  destruct (load_one w k raw); simpl; [apply IH|reflexivity].
Qed.

(** The loop returns when every turn does, with the sources in the order
    of the inputs after those it started from. *)
Lemma load_sources_loop_ok inputs acc l :
  load_sources_loop w k inputs acc = Ok l <->
  exists l', l = acc ++ l'
             /\ Forall2 (fun raw sc => load_one w k raw = Ok sc) inputs l'.
Proof.
  revert acc l. induction inputs as [|raw inputs IH]; intros acc l.
  - simpl. split.
    + intros [= <-]. exists []. now rewrite app_nil_r.
    + intros (l' & -> & H). inversion H. now rewrite app_nil_r.
  - rewrite load_sources_loop_cons. split.
    + destruct (load_one w k raw) as [sc|e] eqn:E; simpl; [|discriminate].
      intros H. apply IH in H as (l' & -> & H).
      exists (sc :: l'). split; [now rewrite <- app_assoc|now constructor].
    + intros (l' & -> & H). inversion H as [|? sc ? l'' E H']; subst.
      rewrite E. simpl. apply IH. exists l''.
      split; [now rewrite <- app_assoc|exact H'].
Qed.

Lemma load_sources_ok inputs l :
  load_sources w inputs k = Ok l <->
  Forall2 (fun raw sc => load_one w k raw = Ok sc) inputs l.
Proof.
  unfold load_sources. rewrite load_sources_loop_ok. split.
  - now intros (l' & -> & H).
  - intros H. now exists l.
Qed.

(** The loop raises what its first failing turn raises. *)
Lemma load_sources_loop_raise inputs acc e :
  load_sources_loop w k inputs acc = Raise e <->
  exists before raw after l0,
    inputs = before ++ raw :: after
    /\ load_sources_loop w k before acc = Ok l0
    /\ load_one w k raw = Raise e.
Proof.
  split.
  - revert acc. induction inputs as [|raw inputs IH]; intros acc; [discriminate|].
    rewrite load_sources_loop_cons.
    destruct (load_one w k raw) as [sc|e'] eqn:E; simpl.
    + intros H. apply IH in H as (before & raw' & after & l0 & -> & H0 & H1).
      exists (raw :: before), raw', after, l0. repeat split; [|exact H1].
      rewrite load_sources_loop_cons, E. exact H0.
    + intros [= ->]. now exists [], raw, inputs, acc.
  - intros (before & raw & after & l0 & -> & H0 & H1).
    rewrite load_sources_loop_app, H0. cbn [bind].
    now rewrite load_sources_loop_cons, H1.
Qed.

(** What a turn that returns has built. *)
Lemma load_one_ok raw sc :
  load_one w k raw = Ok sc <->
  exists t,
    load_raw w raw = Ok (t, label sc)
    /\ text sc = truncated k (normalize_text t)
    /\ strip (text sc) <> [].
Proof.
  unfold load_one. split.
  - destruct (load_raw w raw) as [[t lbl]|e]; simpl; [|discriminate].
    destruct (strip (truncated k (normalize_text t))) eqn:E; [discriminate|].
    intros [= <-]. exists t. simpl. rewrite E. now repeat split.
  - intros (t & -> & E & Hne). simpl. rewrite <- E.
    destruct (strip (text sc)); [contradiction|]. now destruct sc; simpl in *; subst.
Qed.

End Loader.

(** ** The codec *)

Section Codec.

Implicit Types (bs r : list N) (e : errors) (x : exception).

(** Decoding takes one step at a time: a code point or an undecodable run
    comes off the front, whatever the error mode, and a shorter input
    remains. *)
Lemma decode_step b0 r0 pos :
  exists r pos', (length r <= length r0)%nat
    /\ ((exists c, forall e, decode_at e pos (b0 :: r0) = emit c (decode_at e pos' r))
        \/ (exists len rs, forall e,
              decode_at e pos (b0 :: r0) = bad e b0 pos len rs (decode_at e pos' r))).
Proof.
  simpl.
  repeat match goal with
         | |- context [if ?b then _ else _] => destruct b
         | |- context [match ?l with [] => _ | _ :: _ => _ end] =>
             destruct l; simpl length
         end;
    do 2 eexists;
    (split; [|first [left; eexists; intros; reflexivity
                    |right; do 2 eexists; intros; reflexivity]]); simpl; lia.
Qed.

Lemma decode_ignore_total_len n : forall bs pos,
  (length bs <= n)%nat -> exists t, decode_at Ignore pos bs = Ok t.
Proof.
  induction n as [|n IH]; intros [|b0 r0] pos Hlen; simpl in Hlen;
    try (now exists []); try lia.
  destruct (decode_step b0 r0 pos) as (r & pos' & Hr & [[c H]|(len & rs & H)]);
    rewrite H; destruct (IH r pos' ltac:(lia)) as [t Ht]; rewrite Ht; simpl; eauto.
Qed.

(** With [errors="ignore"] decoding never raises. *)
Lemma decode_ignore_total bs : exists t, decode Ignore bs = Ok t.
Proof. apply (decode_ignore_total_len (length bs)). lia. Qed.

Lemma decode_strict_ignore_len n : forall bs pos t,
  (length bs <= n)%nat ->
  decode_at Strict pos bs = Ok t -> decode_at Ignore pos bs = Ok t.
Proof.
  induction n as [|n IH]; intros [|b0 r0] pos t Hlen; simpl in Hlen;
    try (intros H; exact H); try lia.
  destruct (decode_step b0 r0 pos) as (r & pos' & Hr & [[c H]|(len & rs & H)]);
    rewrite !H.
  - unfold emit. destruct (decode_at Strict pos' r) as [t'|] eqn:E; [|discriminate].
    rewrite (IH r pos' t' ltac:(lia) E). auto.
  - discriminate.
Qed.

(** Where strict decoding succeeds, [errors="ignore"] gives the same text. *)
Lemma decode_strict_ignore bs t :
  decode Strict bs = Ok t -> decode Ignore bs = Ok t.
Proof. apply (decode_strict_ignore_len (length bs)). lia. Qed.

Lemma decode_raise_len n : forall e bs pos x,
  (length bs <= n)%nat -> decode_at e pos bs = Raise x -> exists le, x = Raised le.
Proof.
  induction n as [|n IH]; intros e [|b0 r0] pos x Hlen; simpl in Hlen;
    try discriminate; try lia.
  destruct (decode_step b0 r0 pos) as (r & pos' & Hr & [[c H]|(len & rs & H)]);
    rewrite H.
  - unfold emit. destruct (decode_at e pos' r) eqn:E; [discriminate|].
    intros [= <-]. apply (IH e r pos'); [lia|exact E].
  - destruct e; simpl.
    + intros [= <-]. unfold decode_error. eauto.
    + apply IH. lia.
    + unfold emit. destruct (decode_at Replace pos' r) eqn:E; [discriminate|].
      intros [= <-]. apply (IH Replace r pos'); [lia|exact E].
Qed.

(** The only exception of the codec is raised by the library. *)
Lemma decode_raise e bs x : decode e bs = Raise x -> exists le, x = Raised le.
Proof. apply (decode_raise_len (length bs)). lia. Qed.

End Codec.

(** ** Which exceptions the readers raise *)

Section Readers.

Variable w : World.

Implicit Types (path raw m : list N).

Ltac reader_cases :=
  repeat match goal with
         | |- context [call ?r] => destruct r; simpl
         | |- context [decode ?e ?bs] =>
             let E := fresh "E" in
             destruct (decode e bs) eqn:E;
             [|apply decode_raise in E as [? ->]]; simpl
         | |- context [if ?b then _ else _] => destruct b; simpl
         end;
  try discriminate.

Lemma read_text_not_value_error path e m :
  read_text w path e <> Raise (ValueError m).
Proof. unfold read_text, mbind, result_bind, mret, result_ret. reader_cases. Qed.

Lemma load_file_not_value_error path m :
  load_file w path <> Raise (ValueError m).
Proof.
  unfold load_file.
  repeat match goal with
         | |- context [if suffix_in ?s ?l then _ else _] => destruct (suffix_in s l)
         end;
    try apply read_text_not_value_error;
    unfold read_csv, read_docx, read_pdf, mbind, result_bind, mret, result_ret;
    reader_cases.
Qed.

(** Fetching the text of an input never raises a [ValueError] of the
    program's own: that class is left to the emptiness check. *)
Lemma load_raw_not_value_error raw m : load_raw w raw <> Raise (ValueError m).
Proof.
  unfold load_raw, load_url, mbind, result_bind, mret, result_ret.
  destruct (_ || _); [reader_cases|].
  destruct (resolve w raw) as [e|path]; simpl; [discriminate|].
  destruct (path_exists w path) as [e|[]]; simpl; try discriminate.
  pose proof (load_file_not_value_error path m) as H.
  destruct (load_file w path); simpl; [discriminate|congruence].
Qed.

(** A turn of the loop raises the extraction-empty error exactly when the
    text it fetched is blank after normalisation and truncation. *)
Lemma load_one_value_error k raw m :
  load_one w k raw = Raise (ValueError m) <->
  m = lit "No textual content extracted from " ++ raw
  /\ exists t lbl, load_raw w raw = Ok (t, lbl)
                   /\ strip (truncated k (normalize_text t)) = [].
Proof.
  unfold load_one, mbind, result_bind.
  pose proof (load_raw_not_value_error raw m) as Hraw.
  destruct (load_raw w raw) as [[t lbl]|e]; simpl.
  - destruct (strip (truncated k (normalize_text t))) eqn:E; split.
    + intros [= <-]. split; [reflexivity|]. now exists t, lbl.
    + now intros [-> _].
    + discriminate.
    + intros (_ & t' & lbl' & [= <- <-] & E'). congruence.
  - split; [congruence|]. now intros (_ & t & lbl & H & _).
Qed.

End Readers.

(** ** Loaded sources *)

Section Loaded.

Variable w : World.

Implicit Types (raw t lbl : list N) (inputs before after : list (list N))
  (sc : SourceContent) (l : list SourceContent) (k : Z).

Lemma truncated_length k t : (0 < k)%Z -> (len (truncated k t) <= k)%Z.
Proof.
  intros Hk. unfold truncated, slice_to, len.
  destruct (negb (k =? 0)%Z && (Z.of_nat (length t) >? k)%Z) eqn:E.
  - destruct (k <? 0)%Z eqn:E'; [lia|]. rewrite length_take. lia.
  - apply andb_false_iff in E as [E|E]; [apply negb_false_iff in E|]; lia.
Qed.

Lemma truncated_0 t : truncated 0 t = t.
Proof. reflexivity. Qed.

(** Cutting a text at a positive bound keeps its first character. *)
Lemma truncated_head k c r :
  (0 < k)%Z -> exists r', truncated k (c :: r) = c :: r'.
Proof.
  intros Hk. unfold truncated, slice_to.
  destruct (_ && _); [|now exists r].
  destruct (k <? 0)%Z eqn:E'; [lia|].
  destruct (Z.to_nat k) as [|n] eqn:En; [lia|]. simpl. eauto.
Qed.

(** A normalised text that is not empty is not blank after truncation at a
    positive bound, and the other way round. *)
Lemma truncated_blank_iff k t :
  (0 < k)%Z ->
  strip (truncated k (normalize_text t)) = [] <-> normalize_text t = [].
Proof.
  intros Hk. split.
  - destruct (normalize_text_head t) as [E|(c & r & E & Hc)]; [easy|].
    rewrite E. destruct (truncated_head k c r Hk) as [r' ->].
    intros H. now apply strip_visible_head in H.
  - intros ->. unfold truncated, slice_to.
    destruct (_ && _); [destruct (k <? 0)%Z|]; now rewrite ?take_nil.
Qed.

(** [load_sources] raises a [ValueError] exactly at a first failing input
    whose text is blank after normalisation and truncation. *)
Lemma load_sources_value_error inputs k m :
  load_sources w inputs k = Raise (ValueError m) <->
  exists before raw after l0 t lbl,
    inputs = before ++ raw :: after
    /\ load_sources w before k = Ok l0
    /\ m = lit "No textual content extracted from " ++ raw
    /\ load_raw w raw = Ok (t, lbl)
    /\ strip (truncated k (normalize_text t)) = [].
Proof.
  unfold load_sources. rewrite load_sources_loop_raise. split.
  - intros (before & raw & after & l0 & -> & H0 & H1).
    apply load_one_value_error in H1 as (-> & t & lbl & Hraw & Hblank).
    now exists before, raw, after, l0, t, lbl.
  - intros (before & raw & after & l0 & t & lbl & -> & H0 & -> & Hraw & Hblank).
    exists before, raw, after, l0. repeat split; [exact H0|].
    apply load_one_value_error. split; [reflexivity|]. now exists t, lbl.
Qed.

(** C3.  Every source that [load_sources] returns has a text with a visible
    character; when [load_sources] raises a [ValueError], it is the
    extraction-empty error of the first input whose text is blank after
    normalisation and truncation, every earlier input having been loaded;
    and such an input does make it raise that error. *)
Theorem load_sources_text_visible inputs k :
  (forall l, load_sources w inputs k = Ok l ->
             Forall (fun sc => has_visible (text sc)) l)
  /\ (forall m, load_sources w inputs k = Raise (ValueError m) ->
        exists before raw after l0 t lbl,
          inputs = before ++ raw :: after
          /\ load_sources w before k = Ok l0
          /\ m = lit "No textual content extracted from " ++ raw
          /\ load_raw w raw = Ok (t, lbl)
          /\ strip (truncated k (normalize_text t)) = [])
  /\ (forall before raw after l0 t lbl,
        inputs = before ++ raw :: after ->
        load_sources w before k = Ok l0 ->
        load_raw w raw = Ok (t, lbl) ->
        strip (truncated k (normalize_text t)) = [] ->
        load_sources w inputs k
        = Raise (ValueError (lit "No textual content extracted from " ++ raw))).
Proof.
  split; [|split].
  - intros l H. apply load_sources_ok in H.
    induction H as [|raw sc inputs' l' H _ IH]; constructor; [|exact IH].
    apply load_one_ok in H as (t & _ & _ & Hne).
    now apply strip_has_visible.
  - intros m H. now apply load_sources_value_error in H.
  - intros before raw after l0 t lbl -> H0 Hraw Hblank.
    apply load_sources_value_error. now exists before, raw, after, l0, t, lbl.
Qed.

(** C4.  With a positive [max_chars] no loaded text is longer than it; with
    [max_chars = 0] every loaded text is the whole normalised text of its
    input. *)
Theorem load_sources_truncation inputs :
  (forall k l, (0 < k)%Z -> load_sources w inputs k = Ok l ->
               Forall (fun sc => (len (text sc) <= k)%Z) l)
  /\ (forall l, load_sources w inputs 0 = Ok l ->
        Forall2 (fun raw sc =>
                   exists t, load_raw w raw = Ok (t, label sc)
                             /\ text sc = normalize_text t) inputs l).
Proof.
  split.
  - intros k l Hk H. apply load_sources_ok in H.
    induction H as [|raw sc inputs' l' H _ IH]; constructor; [|exact IH].
    apply load_one_ok in H as (t & _ & -> & _).
    now apply truncated_length.
  - intros l H. apply load_sources_ok in H.
    induction H as [|raw sc inputs' l' H _ IH]; constructor; [|exact IH].
    apply load_one_ok in H as (t & Hraw & E & _).
    exists t. now rewrite truncated_0 in E.
Qed.

(** C10.  With a positive [max_chars], truncation keeps the visible first
    character of a normalised text that is not empty, so [load_sources]
    raises the extraction-empty error exactly for a first failing input
    whose normalised text was already empty. *)
Theorem truncation_keeps_visible k :
  (0 < k)%Z ->
  (forall t, normalize_text t <> [] ->
     exists c r, truncated k (normalize_text t) = c :: r /\ isspace c = false)
  /\ (forall inputs m,
        load_sources w inputs k = Raise (ValueError m) <->
        exists before raw after l0 t lbl,
          inputs = before ++ raw :: after
          /\ load_sources w before k = Ok l0
          /\ m = lit "No textual content extracted from " ++ raw
          /\ load_raw w raw = Ok (t, lbl)
          /\ normalize_text t = []).
Proof.
  intros Hk. split.
  - intros t Hne.
    destruct (normalize_text_head t) as [E|(c & r & E & Hc)]; [contradiction|].
    rewrite E. destruct (truncated_head k c r Hk) as [r' ->]. now exists c, r'.
  - intros inputs m. rewrite load_sources_value_error.
    split; intros (before & raw & after & l0 & t & lbl & H1 & H2 & H3 & H4 & H5);
      exists before, raw, after, l0, t, lbl; repeat split; try assumption;
      now apply (truncated_blank_iff k t Hk).
Qed.

End Loaded.

(** ** Occurrences in a text *)

Section Occurrences.

Implicit Types (a b pre post needle hay sep : list N) (parts : list (list N)).

Lemma occurs_at_app pre needle post :
  occurs_at (length pre) needle (pre ++ needle ++ post).
Proof. unfold occurs_at. now rewrite drop_app_length, take_app_length. Qed.

Lemma occurs_at_prefix p a b hay :
  occurs_at p (a ++ b) hay -> occurs_at p a hay.
Proof.
  unfold occurs_at. intros H.
  assert (E : take (length a) (take (length (a ++ b)) (drop p hay)) = a).
  { rewrite H. apply take_app_length. }
  rewrite take_take, length_app in E.
  now replace (length a `min` (length a + length b))%nat with (length a) in E by lia.
Qed.

Lemma startswith_app needle post : startswith (needle ++ post) needle = true.
Proof.
  induction needle as [|c needle IH]; [reflexivity|].
  simpl. now rewrite N.eqb_refl, IH.
Qed.

Lemma contains_here hay needle :
  startswith hay needle = true -> contains hay needle = true.
Proof. intros H. destruct hay; simpl; now rewrite H. Qed.

Lemma contains_app pre needle post :
  contains (pre ++ needle ++ post) needle = true.
Proof.
  induction pre as [|c pre IH].
  - rewrite app_nil_l. apply contains_here, startswith_app.
  - simpl. rewrite IH. apply orb_true_r.
Qed.

Lemma join_cons sep a parts :
  join sep (a :: parts)
  = a ++ match parts with [] => [] | _ => sep ++ join sep parts end.
Proof. destruct parts; simpl; [now rewrite app_nil_r|reflexivity]. Qed.

Lemma join_cons_more sep a parts :
  parts <> [] -> join sep (a :: parts) = a ++ sep ++ join sep parts.
Proof. now destruct parts. Qed.

(** A part of a joined text is preceded by some text and followed by the
    join of the parts after it. *)
Lemma join_middle sep parts a parts' :
  exists pre, join sep (parts ++ a :: parts') = pre ++ join sep (a :: parts').
Proof.
  induction parts as [|b parts [pre IH]]; [now exists []|].
  rewrite <- app_comm_cons, join_cons, IH.
  exists (b ++ sep ++ pre).
  destruct (parts ++ a :: parts') eqn:E.
  - now destruct parts.
  - now rewrite <- !app_assoc.
Qed.

(** Two parts of a joined text, the earlier one first, with the separator
    between them. *)
Lemma join_two sep parts i j a b :
  parts !! i = Some a -> parts !! j = Some b -> (i < j)%nat ->
  exists pre mid post, join sep parts = pre ++ a ++ (sep ++ mid) ++ b ++ post.
Proof.
  intros Hi Hj Hij.
  destruct (list_elem_of_split_length parts i a Hi) as (l1 & l2 & -> & Hl1).
  rewrite lookup_app_r in Hj by lia.
  replace (j - length l1)%nat with (S (j - S i)) in Hj by lia.
  simpl in Hj.
  destruct (list_elem_of_split_length l2 _ b Hj) as (l3 & l4 & -> & _).
  destruct (join_middle sep l1 a (l3 ++ b :: l4)) as [pre ->].
  rewrite join_cons_more by (now destruct l3).
  destruct (join_middle sep l3 b l4) as [mid ->].
  rewrite join_cons.
  exists pre, mid, (match l4 with [] => [] | _ => sep ++ join sep l4 end).
  now rewrite <- !app_assoc.
Qed.

End Occurrences.

(** ** The prompt *)

Section Prompt.

Implicit Types (q : option (list N)) (sources : list SourceContent)
  (s a b c : SourceContent).

Lemma block_unfold i s :
  block i s
  = lit "Source " ++ str_of_nat i ++ lit ": " ++ label s ++ [LF] ++ text s.
Proof. unfold block, header. now rewrite <- !app_assoc. Qed.

(** The loop of [build_prompt] appends the blocks in input order, counting
    from its start value. *)
Lemma context_parts_loop sources : forall start acc,
  foldl (fun context_parts '(idx, source) =>
           context_parts
             ++ [lit "Source " ++ str_of_nat idx ++ lit ": " ++ label source
                 ++ [LF] ++ text source])
    acc (enumerate start sources)
  = acc ++ imap (fun i s => block (start + i) s) sources.
Proof.
  induction sources as [|s sources IH]; intros start acc; simpl.
  - now rewrite app_nil_r.
  - rewrite IH, <- app_assoc. simpl. rewrite Nat.add_0_r, block_unfold.
    do 2 f_equal. apply imap_ext. intros i x _. simpl.
    now rewrite Nat.add_succ_r.
Qed.

Lemma build_prompt_layout q sources :
  build_prompt q sources = layout (opt_or q default_instruction) sources.
Proof.
  unfold build_prompt, layout. rewrite context_parts_loop. reflexivity.
Qed.

Lemma block_nonempty i s : (0 < length (block i s))%nat.
Proof. rewrite block_unfold. simpl. lia. Qed.

(** Two sources of the prompt: the block of the earlier one occurs before
    the block of the later one, each with its 1-based ordinal. *)
Lemma build_prompt_two q sources i j si sj :
  sources !! i = Some si -> sources !! j = Some sj -> (i < j)%nat ->
  exists pi pj,
    (pi < pj)%nat
    /\ occurs_at pi (block (S i) si) (build_prompt q sources)
    /\ occurs_at pj (block (S j) sj) (build_prompt q sources).
Proof.
  intros Hi Hj Hij. rewrite build_prompt_layout. unfold layout.
  set (f := fun (i : nat) (s : SourceContent) => block (S i) s).
  set (hd := opt_or q default_instruction).
  assert (Hi' : imap f sources !! i = Some (block (S i) si))
    by now rewrite list_lookup_imap, Hi.
  assert (Hj' : imap f sources !! j = Some (block (S j) sj))
    by now rewrite list_lookup_imap, Hj.
  destruct (join_two delimiter _ i j _ _ Hi' Hj' Hij) as (pre & mid & post & ->).
  set (front := hd ++ [LF; LF] ++ lit "Context:" ++ [LF]).
  exists (length (front ++ pre)),
         (length ((front ++ pre) ++ block (S i) si ++ delimiter ++ mid)).
  split; [|split].
  - rewrite !length_app. pose proof (block_nonempty (S i) si). lia.
  - replace (hd ++ [LF; LF] ++ lit "Context:" ++ [LF]
             ++ pre ++ block (S i) si ++ (delimiter ++ mid) ++ block (S j) sj ++ post)
      with ((front ++ pre) ++ block (S i) si
            ++ ((delimiter ++ mid) ++ block (S j) sj ++ post)).
    + apply occurs_at_app.
    + unfold front. now rewrite <- !app_assoc.
  - replace (hd ++ [LF; LF] ++ lit "Context:" ++ [LF]
             ++ pre ++ block (S i) si ++ (delimiter ++ mid) ++ block (S j) sj ++ post)
      with (((front ++ pre) ++ block (S i) si ++ delimiter ++ mid)
            ++ block (S j) sj ++ post).
    + apply occurs_at_app.
    + unfold front. now rewrite <- !app_assoc.
Qed.

(** C6.  [build_prompt] keeps the order of the sources and numbers them
    from 1: for three sources, [Source 1: A] occurs strictly before
    [Source 2: B], which occurs strictly before [Source 3: C]; and in any
    list the block of an earlier input, with its own ordinal, occurs
    strictly before the block of a later one. *)
Theorem build_prompt_order q :
  (forall a b c,
     exists p1 p2 p3,
       (p1 < p2 < p3)%nat
       /\ occurs_at p1 (lit "Source 1: " ++ label a) (build_prompt q [a; b; c])
       /\ occurs_at p2 (lit "Source 2: " ++ label b) (build_prompt q [a; b; c])
       /\ occurs_at p3 (lit "Source 3: " ++ label c) (build_prompt q [a; b; c]))
  /\ (forall sources i j si sj,
        sources !! i = Some si -> sources !! j = Some sj -> (i < j)%nat ->
        exists pi pj,
          (pi < pj)%nat
          /\ occurs_at pi
               (lit "Source " ++ str_of_nat (S i) ++ lit ": " ++ label si
                ++ [LF] ++ text si) (build_prompt q sources)
          /\ occurs_at pj
               (lit "Source " ++ str_of_nat (S j) ++ lit ": " ++ label sj
                ++ [LF] ++ text sj) (build_prompt q sources)).
Proof.
  split.
  - intros a b c.
    rewrite build_prompt_layout. unfold layout.
    set (hd := opt_or q default_instruction ++ [LF; LF] ++ lit "Context:" ++ [LF]).
    set (h1 := lit "Source 1: " ++ label a).
    set (h2 := lit "Source 2: " ++ label b).
    set (h3 := lit "Source 3: " ++ label c).
    set (m1 := [LF] ++ text a ++ delimiter).
    set (m2 := [LF] ++ text b ++ delimiter).
    set (m3 := [LF] ++ text c).
    assert (E : opt_or q default_instruction ++ [LF; LF] ++ lit "Context:" ++ [LF]
                ++ join delimiter (imap (fun i s => block (S i) s) [a; b; c])
                = hd ++ h1 ++ m1 ++ h2 ++ m2 ++ h3 ++ m3).
    { unfold hd, h1, h2, h3, m1, m2, m3. simpl imap. simpl join.
      rewrite !block_unfold, <- !app_assoc. reflexivity. }
    rewrite E.
    exists (length hd), (length (hd ++ h1 ++ m1)),
           (length ((hd ++ h1 ++ m1) ++ h2 ++ m2)).
    repeat split.
    + rewrite !length_app. unfold h1. rewrite length_app. simpl. lia.
    + rewrite (length_app (hd ++ h1 ++ m1)), (length_app h2).
      unfold h2. rewrite length_app. simpl. lia.
    + apply occurs_at_app.
    + replace (hd ++ h1 ++ m1 ++ h2 ++ m2 ++ h3 ++ m3)
        with ((hd ++ h1 ++ m1) ++ h2 ++ (m2 ++ h3 ++ m3))
        by now rewrite <- !app_assoc.
      apply occurs_at_app.
    + replace (hd ++ h1 ++ m1 ++ h2 ++ m2 ++ h3 ++ m3)
        with (((hd ++ h1 ++ m1) ++ h2 ++ m2) ++ h3 ++ m3)
        by now rewrite <- !app_assoc.
      apply occurs_at_app.
  - intros sources i j si sj Hi Hj Hij.
    rewrite <- !block_unfold. now apply build_prompt_two.
Qed.

End Prompt.

(** C1, as amended.  [build_prompt] returns the instruction (the default
    one when the query is absent or empty), a blank line, the line
    [Context:], and then the blocks [Source i: label], line feed, [text], in
    input order, joined by the delimiter. *)
Theorem build_prompt_context_line (sources : list SourceContent) :
  (forall instruction, instruction <> [] ->
     build_prompt (Some instruction) sources
     = instruction ++ [LF; LF] ++ lit "Context:" ++ [LF]
       ++ join ([LF; LF] ++ lit "---" ++ [LF; LF])
            (imap (fun i s => lit "Source " ++ str_of_nat (S i) ++ lit ": "
                              ++ label s ++ [LF] ++ text s) sources))
  /\ build_prompt None sources = layout default_instruction sources
  /\ build_prompt (Some []) sources = layout default_instruction sources.
Proof.
  split; [|split]; try apply build_prompt_layout.
  intros instruction Hne. rewrite build_prompt_layout. unfold layout.
  replace (opt_or (Some instruction) default_instruction) with instruction
    by now destruct instruction.
  do 4 f_equal. unfold delimiter. f_equal.
  apply imap_ext. intros i s _. apply block_unfold.
Qed.

(** C1 as stated fails: for one source the prompt is not the instruction, a
    blank line and the block, because the line [Context:] stands between
    the blank line and the block; and an empty instruction is not used as
    it is but gives way to the default one. *)
Lemma build_prompt_not_spec_prompt :
  build_prompt (Some (lit "Q")) [{| label := lit "A"; text := lit "T" |}]
  <> spec_prompt (lit "Q") [{| label := lit "A"; text := lit "T" |}]
  /\ build_prompt (Some (lit "Q")) [{| label := lit "A"; text := lit "T" |}]
     = lit "Q" ++ [LF; LF] ++ lit "Context:" ++ [LF] ++ lit "Source 1: A"
       ++ [LF] ++ lit "T"
  /\ build_prompt (Some []) [{| label := lit "A"; text := lit "T" |}]
     <> layout [] [{| label := lit "A"; text := lit "T" |}].
Proof.
  repeat split; try (intros H; vm_compute in H; discriminate H).
Qed.

Lemma build_prompt_context_line_witness :
  build_prompt (Some (lit "Q")) [{| label := lit "A"; text := lit "T" |}]
  = lit "Q" ++ [LF; LF] ++ lit "Context:" ++ [LF] ++ lit "Source 1: A" ++ [LF] ++ lit "T".
Proof.
  rewrite (proj1 (build_prompt_context_line
                    [{| label := lit "A"; text := lit "T" |}]) (lit "Q"));
    [reflexivity|discriminate].
Defined.

Lemma build_prompt_order_witness :
  exists pi pj,
    (pi < pj)%nat
    /\ occurs_at pi (lit "Source 1: A" ++ [LF] ++ lit "T")
         (build_prompt None [{| label := lit "A"; text := lit "T" |};
                             {| label := lit "B"; text := lit "U" |}])
    /\ occurs_at pj (lit "Source 2: B" ++ [LF] ++ lit "U")
         (build_prompt None [{| label := lit "A"; text := lit "T" |};
                             {| label := lit "B"; text := lit "U" |}]).
Proof.
  apply (proj2 (build_prompt_order None)
           [{| label := lit "A"; text := lit "T" |};
            {| label := lit "B"; text := lit "U" |}] 0%nat 1%nat
           {| label := lit "A"; text := lit "T" |}
           {| label := lit "B"; text := lit "U" |});
    [reflexivity|reflexivity|lia].
Defined.

(** ** Labels *)

Section Labels.

Variable w : World.

Implicit Types (raw t lbl : list N) (inputs : list (list N)).

Lemma load_raw_label raw t lbl :
  load_raw w raw = Ok (t, lbl) ->
  if is_url raw then lbl = raw else resolve w raw = inr lbl.
Proof.
  unfold load_raw, is_url, mbind, result_bind, mret, result_ret.
  destruct (_ || _).
  - destruct (load_url w raw); simpl; [now intros [= _ <-]|discriminate].
  - destruct (resolve w raw) as [e|path]; simpl; [discriminate|].
    destruct (path_exists w path) as [e|[]]; simpl; try discriminate.
    destruct (load_file w path); simpl; [now intros [= _ <-]|discriminate].
Qed.

(** The prompt for one source contains the block of that source. *)
Lemma build_prompt_single_contains (q : option (list N)) (s : SourceContent) :
  contains (build_prompt q [s])
    (lit "Source 1: " ++ label s ++ [LF] ++ text s) = true.
Proof.
  assert (E : build_prompt q [s]
              = (opt_or q default_instruction ++ [LF; LF] ++ lit "Context:" ++ [LF])
                ++ (lit "Source 1: " ++ label s ++ [LF] ++ text s) ++ []).
  { rewrite build_prompt_layout. unfold layout.
    change (imap (fun i s0 => block (S i) s0) [s]) with [block 1 s].
    change (join delimiter [block 1 s]) with (block 1 s).
    rewrite block_unfold.
    change (lit "Source " ++ str_of_nat 1 ++ lit ": " ++ label s ++ [LF] ++ text s)
      with (lit "Source 1: " ++ label s ++ [LF] ++ text s).
    rewrite app_nil_r, <- !app_assoc. reflexivity. }
  rewrite E. apply contains_app.
Qed.

(** C2, as amended.  The label of a loaded source is the input itself for a
    URL and the resolved absolute path for a file; so for an input that
    resolves to a file holding [Hello], blank line, [World], loaded with
    [max_chars = 100], the default prompt contains [Source 1: ], the
    resolved path, and the two lines [Hello] and [World]. *)
Theorem load_sources_label :
  (forall inputs k l,
     load_sources w inputs k = Ok l ->
     Forall2 (fun raw sc =>
                if is_url raw then label sc = raw
                else resolve w raw = inr (label sc)) inputs l)
  /\ (forall raw path,
        is_url raw = false ->
        resolve w raw = inr path ->
        path_exists w path = inr true ->
        load_file w path = Ok (lit "Hello" ++ [LF; LF] ++ lit "World") ->
        load_sources w [raw] 100
        = Ok [{| label := path;
                 text := lit "Hello" ++ [LF] ++ lit "World" |}]
        /\ contains
             (build_prompt None
                [{| label := path;
                    text := lit "Hello" ++ [LF] ++ lit "World" |}])
             (lit "Source 1: " ++ path ++ [LF] ++ lit "Hello"
              ++ [LF] ++ lit "World") = true).
Proof.
  split.
  - intros inputs k l H. apply load_sources_ok in H.
    induction H as [|raw sc inputs' l' H _ IH]; constructor; [|exact IH].
    apply load_one_ok in H as (t & Hraw & _).
    now apply load_raw_label in Hraw.
  - intros raw path Hurl Hres Hex Hfile. split.
    + unfold load_sources, load_sources_loop, load_raw.
      fold (is_url raw). rewrite Hurl, Hres. simpl. rewrite Hex. simpl.
      rewrite Hfile. reflexivity.
    + exact (build_prompt_single_contains None
               {| label := path;
                  text := lit "Hello" ++ [LF] ++ lit "World" |}).
Qed.

End Labels.

(** C2 as stated fails: [notes.txt] in the working directory [/work] is
    loaded under the label [/work/notes.txt], not [notes.txt], and the
    prompt does not contain [Source 1: notes.txt] followed by the two
    lines. *)
Lemma load_sources_label_not_raw :
  read_bytes Demo.offline (lit "/work/notes.txt")
  = inr (lit "Hello" ++ [LF; LF] ++ lit "World")
  /\ exists sc,
       load_sources Demo.offline [lit "notes.txt"] 100 = Ok [sc]
       /\ label sc = lit "/work/notes.txt"
       /\ label sc <> lit "notes.txt"
       /\ contains (build_prompt None [sc])
            (lit "Source 1: notes.txt" ++ [LF] ++ lit "Hello" ++ [LF]
             ++ lit "World") = false.
Proof.
  split; [reflexivity|].
  exists {| label := lit "/work/notes.txt";
            text := lit "Hello" ++ [LF] ++ lit "World" |}.
  repeat split; try (vm_compute; reflexivity).
  intros H. vm_compute in H. discriminate H.
Qed.

Lemma load_sources_label_witness :
  Forall2 (fun raw sc =>
             if is_url raw then label sc = raw
             else resolve Demo.offline raw = inr (label sc))
    [lit "notes.txt"]
    [{| label := lit "/work/notes.txt"; text := lit "Hello" ++ [LF] ++ lit "World" |}]
  /\ contains
       (build_prompt None
          [{| label := lit "/work/notes.txt";
              text := lit "Hello" ++ [LF] ++ lit "World" |}])
       (lit "Source 1: " ++ lit "/work/notes.txt" ++ [LF]
        ++ lit "Hello" ++ [LF] ++ lit "World") = true.
Proof.
  split.
  - apply (proj1 (load_sources_label Demo.offline) [lit "notes.txt"] 100%Z).
    vm_compute. reflexivity.
  - apply (proj2 (load_sources_label Demo.offline) (lit "notes.txt")
             (lit "/work/notes.txt")); vm_compute; reflexivity.
Defined.

Lemma load_sources_text_visible_witness :
  Forall (fun sc => has_visible (text sc))
    [{| label := lit "/work/notes.txt"; text := lit "Hello" ++ [LF] ++ lit "World" |}]
  /\ load_sources Demo.offline [lit "notes.txt"; lit "blank.txt"; lit "notes.txt"] 100
     = Raise (ValueError (lit "No textual content extracted from " ++ lit "blank.txt")).
Proof.
  split.
  - apply (proj1 (load_sources_text_visible Demo.offline [lit "notes.txt"] 100%Z)).
    vm_compute. reflexivity.
  - apply (proj2 (proj2 (load_sources_text_visible Demo.offline
                           [lit "notes.txt"; lit "blank.txt"; lit "notes.txt"] 100%Z))
             [lit "notes.txt"] (lit "blank.txt") [lit "notes.txt"]
             [{| label := lit "/work/notes.txt";
                 text := lit "Hello" ++ [LF] ++ lit "World" |}]
             (lit "   " ++ [LF; 9; LF]) (lit "/work/blank.txt"));
      vm_compute; reflexivity.
Defined.

Lemma load_sources_truncation_witness :
  Forall (fun sc => (len (text sc) <= 5)%Z)
    [{| label := lit "/work/notes.txt"; text := lit "Hello" |}]
  /\ Forall2 (fun raw sc =>
                exists t, load_raw Demo.offline raw = Ok (t, label sc)
                          /\ text sc = normalize_text t)
       [lit "notes.txt"]
       [{| label := lit "/work/notes.txt";
           text := lit "Hello" ++ [LF] ++ lit "World" |}].
Proof.
  split.
  - apply (proj1 (load_sources_truncation Demo.offline [lit "notes.txt"]) 5%Z);
      [lia|vm_compute; reflexivity].
  - apply (proj2 (load_sources_truncation Demo.offline [lit "notes.txt"])).
    vm_compute. reflexivity.
Defined.

Lemma truncation_keeps_visible_witness :
  (exists c r, truncated 3 (normalize_text (lit "  Hello ")) = c :: r
               /\ isspace c = false)
  /\ exists before raw after l0 t lbl,
       [lit "blank.txt"] = before ++ raw :: after
       /\ load_sources Demo.offline before 3 = Ok l0
       /\ lit "No textual content extracted from " ++ lit "blank.txt"
          = lit "No textual content extracted from " ++ raw
       /\ load_raw Demo.offline raw = Ok (t, lbl)
       /\ normalize_text t = [].
Proof.
  split.
  - apply (proj1 (truncation_keeps_visible Demo.offline 3 ltac:(lia))).
    vm_compute. discriminate.
  - apply (proj1 (proj2 (truncation_keeps_visible Demo.offline 3 ltac:(lia))
                    [lit "blank.txt"] _)).
    vm_compute. reflexivity.
Defined.

(** ** The fallback reader *)

Section Fallback.

Variable w : World.

Implicit Types (path bs t : list N).

Lemma suffix_in_app s l1 l2 :
  suffix_in s (l1 ++ l2) = suffix_in s l1 || suffix_in s l2.
Proof.
  unfold suffix_in. rewrite map_app.
  destruct (bool_decide (s ∈ List.map lit l1)) eqn:E1,
           (bool_decide (s ∈ List.map lit l2)) eqn:E2; simpl;
    rewrite ?bool_decide_eq_true, ?bool_decide_eq_false in *;
    rewrite elem_of_app; tauto.
Qed.

Lemma load_file_unrecognized path :
  suffix_in (lower (path_suffix path)) recognized = false ->
  load_file w path = read_text w path Ignore.
Proof.
  intros H. unfold load_file.
  change recognized
    with ([".txt"%string; ".md"%string; ".rst"%string]
          ++ [".csv"%string] ++ [".docx"%string] ++ [".pdf"%string]) in H.
  rewrite !suffix_in_app in H.
  repeat (apply orb_false_iff in H as [? H]).
  now repeat match goal with E : suffix_in _ _ = false |- _ => rewrite E; clear E end.
Qed.

(** C7, as amended.  A file whose extension is not a recognised one is read
    as UTF-8 with undecodable bytes dropped: if its bytes can be read at
    all, loading returns a text, which is the strictly decoded text when
    the bytes are valid UTF-8; the only exception is that of reading the
    bytes. *)
Theorem load_file_fallback path :
  suffix_in (lower (path_suffix path)) recognized = false ->
  load_file w path = read_text w path Ignore
  /\ (forall bs, read_bytes w path = inr bs ->
        exists t, decode Ignore bs = Ok t
                  /\ load_file w path = Ok (universal_newlines t))
  /\ (forall bs t, read_bytes w path = inr bs -> decode Strict bs = Ok t ->
        load_file w path = Ok (universal_newlines t))
  /\ (forall e, load_file w path = Raise e ->
        exists le, read_bytes w path = inl le /\ e = Raised le).
Proof.
  intros H. rewrite (load_file_unrecognized path H).
  unfold read_text, mbind, result_bind, mret, result_ret.
  repeat split.
  - intros bs ->. destruct (decode_ignore_total bs) as [t Ht].
    exists t. split; [exact Ht|]. simpl. now rewrite Ht.
  - intros bs t -> Ht. simpl. now rewrite (decode_strict_ignore bs t Ht).
  - intros e. destruct (read_bytes w path) as [le|bs]; simpl.
    + intros [= <-]. now exists le.
    + destruct (decode_ignore_total bs) as [t ->]. discriminate.
Qed.

End Fallback.

(** C7 as stated fails: the byte FF between [A] and [B] is dropped, not
    replaced; decoding with replacement would put U+FFFD there. *)
Lemma load_file_drops_undecodable :
  read_bytes Demo.offline (lit "/work/blob.bin") = inr [0x41; 0xFF; 0x42]
  /\ load_file Demo.offline (lit "/work/blob.bin") = Ok (lit "AB")
  /\ read_text Demo.offline (lit "/work/blob.bin") Replace = Ok [0x41; 0xFFFD; 0x42]
  /\ load_file Demo.offline (lit "/work/blob.bin")
     <> read_text Demo.offline (lit "/work/blob.bin") Replace.
Proof.
  repeat split; try (vm_compute; reflexivity).
  intros H. vm_compute in H. discriminate H.
Qed.

Lemma load_file_fallback_witness :
  load_file Demo.offline (lit "/work/blob.bin")
  = read_text Demo.offline (lit "/work/blob.bin") Ignore
  /\ exists t, decode Ignore [0x41; 0xFF; 0x42] = Ok t
               /\ load_file Demo.offline (lit "/work/blob.bin")
                  = Ok (universal_newlines t).
Proof.
  assert (H : suffix_in (lower (path_suffix (lit "/work/blob.bin"))) recognized = false)
    by (vm_compute; reflexivity).
  split.
  - apply (proj1 (load_file_fallback Demo.offline (lit "/work/blob.bin") H)).
  - apply (proj1 (proj2 (load_file_fallback Demo.offline (lit "/work/blob.bin") H))).
    vm_compute. reflexivity.
Defined.

(** ** The model call *)

Section Model.

Variable w : World.

Implicit Types (prompt model key : list N).

(** How [call_llm] can go: without the package, without the credential, or
    with a client and one request before anything else happens. *)
Lemma call_llm_cases prompt model :
  (has_openai w = false
   /\ call_llm w prompt model = ([], Raise missing_package))
  \/ (has_openai w = true
      /\ opt_or (environ_api_key w) [] = []
      /\ call_llm w prompt model = ([], Raise missing_credential))
  \/ (has_openai w = true
      /\ exists key r,
           environ_api_key w = Some key /\ key <> []
           /\ call_llm w prompt model
              = ([ClientCreated key; ChatRequest model system_message prompt], r)).
Proof.
  unfold call_llm. destruct (has_openai w); simpl; [|now left].
  right. destruct (environ_api_key w) as [[|c key]|] eqn:E; simpl;
    [now left|right|now left].
  split; [reflexivity|]. exists (c :: key).
  unfold mbind, io_mbind, io_bind, io_event, io_lift, io_raise, mret, io_mret, io_ret.
  destruct (call _) as [response|e]; simpl.
  - destruct (choices response) as [|[[[|d content]|]|] ?]; simpl;
      eexists; (split; [reflexivity|split; [discriminate|reflexivity]]).
  - eexists; (split; [reflexivity|split; [discriminate|reflexivity]]).
Qed.

(** C8, as amended.  With the credential unset or empty, [call_llm] raises
    before a client is constructed or a request made: the
    missing-credential error when the [openai] package can be imported, and
    the missing-package error of the import guard when it cannot. *)
Theorem call_llm_missing_credential prompt model :
  environ_api_key w = None \/ environ_api_key w = Some [] ->
  (has_openai w = true ->
   call_llm w prompt model = ([], Raise missing_credential))
  /\ (has_openai w = false ->
      call_llm w prompt model = ([], Raise missing_package)).
Proof.
  intros Hkey.
  destruct (call_llm_cases prompt model)
    as [[Hno H]|[(Hyes & _ & H)|(Hyes & key & r & E & Hne & _)]].
  - split; [congruence|now intros _].
  - split; [now intros _|congruence].
  - destruct Hkey; congruence.
Qed.




End Model.

(** C8 as stated fails: where the [openai] package cannot be imported, an
    unset credential is not reported; the import guard raises first. *)
Lemma call_llm_import_guard_first :
  environ_api_key (Demo.world false None) = None
  /\ call_llm (Demo.world false None) (lit "p") (lit "gpt-4o-mini")
     = ([], Raise missing_package)
  /\ call_llm (Demo.world false None) (lit "p") (lit "gpt-4o-mini")
     <> ([], Raise missing_credential).
Proof.
  repeat split. intros H. vm_compute in H. discriminate H.
Qed.

Lemma call_llm_missing_credential_witness :
  call_llm Demo.offline (lit "p") (lit "gpt-4o-mini") = ([], Raise missing_credential)
  /\ call_llm (Demo.world true (Some [])) (lit "p") (lit "gpt-4o-mini")
     = ([], Raise missing_credential)
  /\ call_llm (Demo.world false (Some [])) (lit "p") (lit "gpt-4o-mini")
     = ([], Raise missing_package).
Proof.
  split; [|split].
  - apply (proj1 (call_llm_missing_credential Demo.offline (lit "p")
                    (lit "gpt-4o-mini") (or_introl eq_refl))).
    reflexivity.
  - apply (proj1 (call_llm_missing_credential (Demo.world true (Some [])) (lit "p")
                    (lit "gpt-4o-mini") (or_intror eq_refl))).
    reflexivity.
  - apply (proj2 (call_llm_missing_credential (Demo.world false (Some [])) (lit "p")
                    (lit "gpt-4o-mini") (or_intror eq_refl))).
    reflexivity.
Defined.

(** ** The top-level run *)

Section Run.

Variable w : World.

Implicit Types (argv : option (list (list N))) (args : Args) (e : exception).









End Run.



(** * Further properties *)

(** ** What normalisation keeps and what it removes *)

Section Visible.

Implicit Types (s cur line : list N) (ls : list (list N)) (c : N).

Lemma islinebreak_isspace c : islinebreak c = true -> isspace c = true.
Proof.
  unfold islinebreak, isspace.
  rewrite !orb_true_iff, !andb_true_iff, !N.leb_le, !N.eqb_eq. lia.
Qed.

Lemma visible_chars_app s t :
  visible_chars (s ++ t) = visible_chars s ++ visible_chars t.
Proof. apply filter_app. Qed.

Lemma visible_chars_space c s :
  isspace c = true -> visible_chars (c :: s) = visible_chars s.
Proof. intros H. unfold visible_chars. apply filter_cons_False. congruence. Qed.

Lemma visible_chars_visible c s :
  isspace c = false -> visible_chars (c :: s) = c :: visible_chars s.
Proof. intros H. unfold visible_chars. now apply filter_cons_True. Qed.

Lemma visible_chars_reverse s : visible_chars (reverse s) = reverse (visible_chars s).
Proof. apply filter_reverse. Qed.

Lemma visible_chars_lstrip s : visible_chars (lstrip s) = visible_chars s.
Proof.
  induction s as [|c s IH]; [reflexivity|]. simpl.
  destruct (isspace c) eqn:Hc; [|reflexivity].
  now rewrite IH, (visible_chars_space c s Hc).
Qed.

(** Stripping removes white space only. *)
Lemma visible_chars_strip s : visible_chars (strip s) = visible_chars s.
Proof.
  unfold strip, rstrip.
  now rewrite visible_chars_reverse, visible_chars_lstrip, visible_chars_reverse,
    reverse_involutive, visible_chars_lstrip.
Qed.

Lemma visible_chars_nil_iff s : visible_chars s = [] <-> all_space s.
Proof.
  unfold all_space. induction s as [|c s IH]; [split; [constructor|reflexivity]|].
  destruct (isspace c) eqn:Hc.
  - rewrite (visible_chars_space c s Hc), IH. split.
    + now constructor.
    + now inversion 1.
  - rewrite (visible_chars_visible c s Hc). split; [discriminate|].
    inversion 1; congruence.
Qed.

Lemma visible_chars_join_LF ls :
  visible_chars (join [LF] ls) = visible_chars (concat ls).
Proof.
  induction ls as [|line ls IH]; [reflexivity|].
  rewrite join_cons. simpl concat. rewrite !visible_chars_app. f_equal.
  destruct ls as [|line' ls]; [reflexivity|].
  rewrite <- IH. change ([LF] ++ join [LF] (line' :: ls))
    with (LF :: join [LF] (line' :: ls)).
  now apply visible_chars_space.
Qed.

Lemma visible_chars_kept ls :
  visible_chars (concat (filter (fun line => line <> []) (List.map strip ls)))
  = visible_chars (concat ls).
Proof.
  induction ls as [|line ls IH]; [reflexivity|].
  simpl. rewrite visible_chars_app, <- IH, <- (visible_chars_strip line).
  destruct (decide (strip line = [])) as [E|Hne].
  - rewrite filter_cons_False by (intros H; now apply H). now rewrite E.
  - rewrite filter_cons_True by exact Hne. simpl. now rewrite visible_chars_app.
Qed.

Lemma visible_chars_splitlines_from_len n : forall s cur,
  (length s <= n)%nat ->
  visible_chars (concat (splitlines_from cur s))
  = visible_chars (reverse cur ++ s).
Proof.
  induction n as [|n IH]; intros s cur Hlen.
  - destruct s; [|simpl in Hlen; lia]. simpl.
    destruct cur; [reflexivity|]. simpl. now rewrite !app_nil_r.
  - destruct s as [|c s]; simpl.
    + destruct cur; [reflexivity|]. simpl. now rewrite !app_nil_r.
    + simpl in Hlen. destruct (islinebreak c) eqn:Hc.
      * pose proof (islinebreak_isspace c Hc) as Hsp.
        assert (Hskip : forall s', (length s' <= n)%nat ->
                  visible_chars (s') = visible_chars s ->
                  visible_chars (concat (reverse cur :: splitlines_from [] s'))
                  = visible_chars (reverse cur ++ c :: s)).
        { intros s' Hs' E. simpl concat.
          rewrite !visible_chars_app, (visible_chars_space c s Hsp), <- E.
          f_equal. now rewrite (IH s' [] Hs'). }
        destruct (c =? CR); [destruct s as [|d s']; [|destruct (d =? LF) eqn:Hd]|];
          try (apply Hskip; [simpl in *; lia|reflexivity]).
        apply Hskip; [simpl in *; lia|].
        apply N.eqb_eq in Hd. subst d.
        symmetry. now apply visible_chars_space.
      * rewrite (IH s (c :: cur)) by lia.
        now rewrite reverse_cons, <- app_assoc.
Qed.

Lemma visible_chars_splitlines s :
  visible_chars (concat (splitlines s)) = visible_chars s.
Proof. apply (visible_chars_splitlines_from_len (length s)). lia. Qed.

Lemma visible_chars_normalize_text s :
  visible_chars (normalize_text s) = visible_chars s.
Proof.
  unfold normalize_text.
  now rewrite visible_chars_join_LF, visible_chars_kept, visible_chars_splitlines.
Qed.

(** X1.  Normalisation changes white space only: the characters that are
    not white space are the same, in the same order, before and after. *)
Theorem normalize_text_visible_chars s :
  filter (fun c => isspace c = false) (normalize_text s)
  = filter (fun c => isspace c = false) s.
Proof.
  fold (visible_chars (normalize_text s)). fold (visible_chars s).
  unfold normalize_text.
  rewrite visible_chars_join_LF, visible_chars_kept.
  apply visible_chars_splitlines.
Qed.

(** The normalised text is empty exactly for a text of white space. *)
Lemma normalize_text_nil_iff s : normalize_text s = [] <-> all_space s.
Proof.
  rewrite <- visible_chars_nil_iff. split.
  - intros E. now rewrite <- visible_chars_normalize_text, E.
  - intros E.
    destruct (normalize_text_head s) as [H|(c & r & H & Hc)]; [exact H|].
    pose proof (visible_chars_normalize_text s) as Hv.
    rewrite E, H in Hv.
    now rewrite (visible_chars_visible c r Hc) in Hv.
Qed.

Lemma strip_normalize_text_nil_iff s :
  strip (normalize_text s) = [] <-> normalize_text s = [].
Proof.
  split; [|now intros ->].
  destruct (normalize_text_head s) as [H|(c & r & H & Hc)]; [easy|].
  rewrite H. intros E. now apply strip_visible_head in E.
Qed.

Lemma truncated_blank_iff_nonneg k s :
  (0 <= k)%Z ->
  strip (truncated k (normalize_text s)) = [] <-> normalize_text s = [].
Proof.
  intros Hk. destruct (Z.eq_dec k 0%Z) as [->|Hne].
  - rewrite truncated_0. apply strip_normalize_text_nil_iff.
  - apply truncated_blank_iff. lia.
Qed.

Lemma load_sources_single w k raw :
  load_sources w [raw] k = bind (load_one w k raw) (fun sc => Ok [sc]).
Proof. unfold load_sources. now rewrite load_sources_loop_cons. Qed.

(** X2.  With [max_chars] not negative, an input whose text could be
    fetched is refused as empty exactly when that text is made of white
    space only. *)
Theorem extraction_empty_iff_all_space w k raw t lbl :
  (0 <= k)%Z ->
  load_raw w raw = Ok (t, lbl) ->
  load_sources w [raw] k
  = Raise (ValueError (lit "No textual content extracted from " ++ raw))
  <-> Forall (fun c => isspace c = true) t.
Proof.
  intros Hk Hraw. rewrite load_sources_single.
  fold (all_space t). rewrite <- normalize_text_nil_iff,
    <- (truncated_blank_iff_nonneg k t Hk).
  split.
  - destruct (load_one w k raw) as [sc|e] eqn:E; simpl; [discriminate|].
    intros [= ->]. apply load_one_value_error in E as (_ & t' & lbl' & Hraw' & H).
    congruence.
  - intros H.
    assert (E : load_one w k raw
                = Raise (ValueError (lit "No textual content extracted from " ++ raw))).
    { apply load_one_value_error. split; [reflexivity|]. now exists t, lbl. }
    now rewrite E.
Qed.

Lemma length_lstrip s : (length (lstrip s) <= length s)%nat.
Proof.
  induction s as [|c s IH]; simpl; [lia|].
  destruct (isspace c); simpl; lia.
Qed.

Lemma length_strip s : (length (strip s) <= length s)%nat.
Proof.
  unfold strip, rstrip. rewrite length_reverse.
  etransitivity; [apply length_lstrip|].
  rewrite length_reverse. apply length_lstrip.
Qed.

(** The length of the lines with one terminator each. *)
Lemma length_join_LF ls :
  (length (join [LF] ls) + match ls with [] => 0 | _ => 1 end
   = length (concat (List.map (cons LF) ls)))%nat.
Proof.
  induction ls as [|line ls IH]; [reflexivity|].
  rewrite join_cons.
  change (concat (List.map (cons LF) (line :: ls)))
    with ((LF :: line) ++ concat (List.map (cons LF) ls)).
  rewrite !length_app, <- IH. cbn [length].
  destruct ls as [|line' ls]; [simpl; lia|].
  rewrite length_app. cbn [length]. lia.
Qed.

Lemma length_kept ls :
  (length (concat (List.map (cons LF)
                     (filter (fun line => line <> []) (List.map strip ls))))
   <= length (concat (List.map (cons LF) ls)))%nat.
Proof.
  induction ls as [|line ls IH]; [reflexivity|].
  simpl. rewrite length_app. pose proof (length_strip line).
  destruct (decide (strip line = [])) as [E|Hne].
  - rewrite filter_cons_False by (intros H'; now apply H'). lia.
  - rewrite filter_cons_True by exact Hne. simpl. rewrite length_app. lia.
Qed.

Lemma length_splitlines_from_len n : forall s cur,
  (length s <= n)%nat ->
  (length (concat (List.map (cons LF) (splitlines_from cur s)))
   <= length cur + length s + 1)%nat.
Proof.
  induction n as [|n IH]; intros s cur Hlen.
  - destruct s; [|simpl in Hlen; lia]. simpl.
    destruct cur; simpl; [lia|].
    rewrite ?app_nil_r, ?length_app, ?length_reverse. simpl. lia.
  - destruct s as [|c s]; simpl.
    + destruct cur; simpl; [lia|].
      rewrite ?app_nil_r, ?length_app, ?length_reverse. simpl. lia.
    + simpl in Hlen.
      assert (Hskip : forall s', (length s' <= length s)%nat ->
                (length (concat (List.map (cons LF)
                                   (reverse cur :: splitlines_from [] s')))
                 <= length cur + S (length s) + 1)%nat).
      { intros s' Hs'. simpl. rewrite length_app, length_reverse.
        pose proof (IH s' [] ltac:(lia)). simpl in *. lia. }
      destruct (islinebreak c).
      * destruct (c =? CR); [destruct s as [|d s']; [|destruct (d =? LF)]|];
          apply Hskip; simpl; lia.
      * pose proof (IH s (c :: cur) ltac:(lia)). simpl in *. lia.
Qed.

(** X3.  Normalisation never makes a text longer. *)
Theorem normalize_text_length s :
  (length (normalize_text s) <= length s)%nat.
Proof.
  unfold normalize_text.
  pose proof (length_join_LF
                (filter (fun line => line <> []) (List.map strip (splitlines s)))) as Hj.
  pose proof (length_kept (splitlines s)) as Hk.
  pose proof (length_splitlines_from_len (length s) s [] ltac:(lia)) as Hs.
  fold (splitlines s) in Hs. simpl in Hs.
  destruct (filter (fun line => line <> []) (List.map strip (splitlines s)));
    [simpl; lia|lia].
Qed.

(** X4.  Every line of a normalised text is non-empty, is left as it is by
    [strip], and begins with a character that is not white space. *)
Theorem normalize_text_lines s :
  Forall (fun line => line <> [] /\ strip line = line
                      /\ exists c r, line = c :: r /\ isspace c = false)
    (splitlines (normalize_text s)).
Proof.
  rewrite splitlines_normalize_text.
  eapply Forall_impl; [apply kept_lines_spec|].
  intros line [[Hne _] E]. repeat split; [exact Hne|exact E|].
  destruct (strip_head line) as [H|(c & r & H & Hc)]; [congruence|].
  exists c, r. split; [congruence|exact Hc].
Qed.

End Visible.

(** ** The loader, input by input *)

Section Inputs.

Variable w : World.

Implicit Types (raw t lbl path m : list N) (inputs a b before after : list (list N))
  (sc : SourceContent) (l : list SourceContent) (k : Z) (e : exception).

(** X5.  Loading is done input by input: a list of inputs loads exactly
    when its two halves load, the result being the two results one after
    the other; in particular there is one source for each input. *)
Theorem load_sources_app a b k l :
  (load_sources w (a ++ b) k = Ok l <->
   exists la lb, l = la ++ lb
                 /\ load_sources w a k = Ok la
                 /\ load_sources w b k = Ok lb)
  /\ (load_sources w a k = Ok l -> length l = length a).
Proof.
  split.
  - rewrite load_sources_ok, Forall2_app_inv_l. split.
    + intros (la & lb & Ha & Hb & ->). exists la, lb.
      now rewrite !load_sources_ok.
    + intros (la & lb & -> & Ha & Hb). exists la, lb.
      now rewrite <- !load_sources_ok.
  - rewrite load_sources_ok. intros H. symmetry. exact (Forall2_length _ _ _ H).
Qed.

Lemma load_sources_single_raise k raw e :
  load_sources w [raw] k = Raise e <-> load_one w k raw = Raise e.
Proof.
  rewrite load_sources_single.
  destruct (load_one w k raw); simpl; split; congruence.
Qed.

(** X6.  Loading stops at the first input that fails: [load_sources] raises
    [e] exactly when some input raises [e] when loaded alone and all the
    inputs before it load; the inputs after it play no part. *)
Theorem load_sources_first_failure inputs k e :
  load_sources w inputs k = Raise e <->
  exists before raw after l0,
    inputs = before ++ raw :: after
    /\ load_sources w before k = Ok l0
    /\ load_sources w [raw] k = Raise e.
Proof.
  unfold load_sources at 1. rewrite load_sources_loop_raise.
  split; intros (before & raw & after & l0 & H1 & H2 & H3);
    exists before, raw, after, l0; repeat split; try assumption;
    now apply load_sources_single_raise.
Qed.

(** What a turn of the loop does once the text of the input is there. *)
Lemma load_one_fetched k raw t lbl :
  load_raw w raw = Ok (t, lbl) ->
  load_one w k raw =
  match strip (truncated k (normalize_text t)) with
  | [] => Raise (extraction_empty raw)
  | _ => Ok {| label := lbl; text := truncated k (normalize_text t) |}
  end.
Proof. intros H. unfold load_one. now rewrite H. Qed.

Lemma load_one_raise_fetch k raw e :
  load_raw w raw = Raise e -> load_one w k raw = Raise e.
Proof. intros H. unfold load_one. now rewrite H. Qed.

Lemma truncated_negative k s :
  (k < 0)%Z -> truncated k s = take (Z.to_nat (len s + k)) s.
Proof.
  intros Hk. unfold truncated, slice_to, len.
  replace (negb (k =? 0)%Z && (Z.of_nat (length s) >? k)%Z) with true
    by (symmetry; apply andb_true_iff; split;
        [apply negb_true_iff, Z.eqb_neq|rewrite Z.gtb_ltb; apply Z.ltb_lt]; lia).
  replace (k <? 0)%Z with true by (symmetry; apply Z.ltb_lt; lia).
  f_equal. lia.
Qed.

(** X7.  A negative [max_chars] cuts that many characters off the end of
    the normalised text: an input whose normalised text is no longer than
    that is refused as empty although it has text, and a longer one is
    loaded without its last characters. *)
Theorem load_sources_negative_bound k raw t lbl :
  (k < 0)%Z ->
  load_raw w raw = Ok (t, lbl) ->
  ((len (normalize_text t) + k <= 0)%Z ->
   load_sources w [raw] k = Raise (extraction_empty raw))
  /\ ((0 < len (normalize_text t) + k)%Z ->
      load_sources w [raw] k
      = Ok [{| label := lbl;
               text := take (Z.to_nat (len (normalize_text t) + k))
                         (normalize_text t) |}]).
Proof.
  intros Hk Hraw.
  rewrite load_sources_single, (load_one_fetched k raw t lbl Hraw),
    (truncated_negative k _ Hk).
  split; intros H.
  - replace (Z.to_nat (len (normalize_text t) + k)) with 0%nat by lia.
    reflexivity.
  - destruct (normalize_text_head t) as [E|(c & r & E & Hc)].
    + rewrite E in H. unfold len in H. simpl in H. lia.
    + rewrite E in *.
      destruct (Z.to_nat (len (c :: r) + k)) as [|n] eqn:En; [lia|].
      simpl take. pose proof (strip_visible_head c (take n r) Hc) as Hne.
      now destruct (strip (c :: take n r)).
Qed.

Lemma truncated_prefix k s : truncated k s `prefix_of` s.
Proof.
  unfold truncated, slice_to.
  destruct (_ && _); [|reflexivity].
  destruct (k <? 0)%Z; apply prefix_take.
Qed.

(** X8.  Whatever [max_chars] is, truncation only cuts at the end: the text
    of every loaded source is a prefix of the normalised text of its
    input, and is that whole text when it has at most [max_chars]
    characters. *)
Theorem load_sources_text_prefix inputs k l :
  load_sources w inputs k = Ok l ->
  Forall2 (fun raw sc =>
             exists t, load_raw w raw = Ok (t, label sc)
                       /\ text sc `prefix_of` normalize_text t
                       /\ ((0 <= len (normalize_text t) <= k)%Z ->
                           text sc = normalize_text t)) inputs l.
Proof.
  intros H. apply load_sources_ok in H.
  induction H as [|raw sc inputs' l' H _ IH]; constructor; [|exact IH].
  apply load_one_ok in H as (t & Hraw & -> & _).
  exists t. repeat split; [exact Hraw|apply truncated_prefix|].
  intros Hk. unfold truncated.
  replace (len (normalize_text t) >? k)%Z with false
    by (symmetry; rewrite Z.gtb_ltb; apply Z.ltb_ge; lia).
  now rewrite andb_false_r.
Qed.

End Inputs.

(** ** Which input fails with which exception *)

Section Failures.

Variable w : World.

Implicit Types (raw path url m : list N) (k : Z) (e : exception).

Ltac library_cases :=
  repeat match goal with
         | |- context [call ?r] => destruct r; simpl
         | |- context [decode ?e ?bs] =>
             let E := fresh "E" in
             destruct (decode e bs) eqn:E;
             [|apply decode_raise in E as [? ->]]; simpl
         end;
  try discriminate.

Lemma suffix_in_singleton s x : suffix_in s [x] = true <-> s = lit x.
Proof.
  unfold suffix_in. rewrite bool_decide_eq_true. simpl.
  apply list_elem_of_singleton.
Qed.

Lemma read_text_library path errs e :
  read_text w path errs = Raise e -> exists le, e = Raised le.
Proof.
  unfold read_text, mbind, result_bind, mret, result_ret.
  library_cases.
  all: intros [= <-]; unfold decode_error; eauto.
Qed.

Lemma read_csv_library path e :
  read_csv w path = Raise e -> exists le, e = Raised le.
Proof.
  unfold read_csv, mbind, result_bind, mret, result_ret.
  library_cases.
  all: intros [= <-]; unfold decode_error; eauto.
Qed.

Lemma read_docx_raise path e :
  read_docx w path = Raise e ->
  (has_docx w = false /\ e = needs_docx) \/ (has_docx w = true /\ exists le, e = Raised le).
Proof.
  unfold read_docx, mbind, result_bind, mret, result_ret.
  destruct (has_docx w); simpl; intros H; [right|left]; (split; [reflexivity|]).
  - revert H. library_cases. all: intros [= <-]; unfold decode_error; eauto.
  - now injection H as <-.
Qed.

Lemma read_pdf_raise path e :
  read_pdf w path = Raise e ->
  (has_pypdf2 w = false /\ e = needs_pypdf2)
  \/ (has_pypdf2 w = true /\ exists le, e = Raised le).
Proof.
  unfold read_pdf, mbind, result_bind, mret, result_ret.
  destruct (has_pypdf2 w); simpl; intros H; [right|left]; (split; [reflexivity|]).
  - revert H. library_cases. all: intros [= <-]; unfold decode_error; eauto.
  - now injection H as <-.
Qed.

(** The exceptions of [load_file]: those of the libraries, and the two
    import guards, each for its own extension. *)
Lemma load_file_raise path e :
  load_file w path = Raise e ->
  (exists le, e = Raised le)
  \/ (extension path = lit ".docx" /\ has_docx w = false /\ e = needs_docx)
  \/ (extension path = lit ".pdf" /\ has_pypdf2 w = false /\ e = needs_pypdf2).
Proof.
  unfold load_file. fold (extension path).
  destruct (suffix_in (extension path) [".txt"; ".md"; ".rst"]%string);
    [intros H; left; eapply read_text_library, H|].
  destruct (suffix_in (extension path) [".csv"%string]);
    [intros H; left; eapply read_csv_library, H|].
  destruct (suffix_in (extension path) [".docx"%string]) eqn:Ed.
  { apply suffix_in_singleton in Ed. intros H.
    apply read_docx_raise in H as [[H1 H2]|[_ H]]; [right; left|left]; auto. }
  destruct (suffix_in (extension path) [".pdf"%string]) eqn:Ep.
  { apply suffix_in_singleton in Ep. intros H.
    apply read_pdf_raise in H as [[H1 H2]|[_ H]]; [right; right|left]; auto. }
  intros H; left; eapply read_text_library, H.
Qed.

Lemma load_file_docx path :
  extension path = lit ".docx" -> load_file w path = read_docx w path.
Proof. intros E. unfold load_file. fold (extension path). now rewrite E. Qed.

Lemma load_file_pdf path :
  extension path = lit ".pdf" -> load_file w path = read_pdf w path.
Proof. intros E. unfold load_file. fold (extension path). now rewrite E. Qed.

Lemma load_raw_url raw :
  is_url raw = true ->
  load_raw w raw = bind (load_url w raw) (fun t => Ok (t, raw)).
Proof. intros H. unfold load_raw. fold (is_url raw). now rewrite H. Qed.

Lemma load_raw_path raw :
  is_url raw = false ->
  load_raw w raw =
  match resolve w raw with
  | inl e => Raise (Raised e)
  | inr path =>
      match path_exists w path with
      | inl e => Raise (Raised e)
      | inr false => Raise (input_not_found raw)
      | inr true => bind (load_file w path) (fun t => Ok (t, path))
      end
  end.
Proof.
  intros H. unfold load_raw. fold (is_url raw). rewrite H.
  unfold mbind, result_bind. destruct (resolve w raw) as [e|path]; simpl;
    [reflexivity|].
  now destruct (path_exists w path) as [e|[]].
Qed.

Lemma load_url_raise url e :
  load_url w url = Raise e ->
  (has_requests_bs4 w = false /\ e = needs_requests)
  \/ (has_requests_bs4 w = true /\ exists le, e = Raised le).
Proof.
  unfold load_url. destruct (has_requests_bs4 w); simpl; intros H;
    [right|left]; (split; [reflexivity|]).
  - destruct (visible_text w url); simpl in H; [|discriminate].
    injection H as <-. eauto.
  - now injection H as <-.
Qed.

(** A turn of the loop raises what fetching the text raises, or else the
    extraction-empty error. *)
Lemma load_one_raise k raw e :
  load_one w k raw = Raise e ->
  load_raw w raw = Raise e \/ e = extraction_empty raw.
Proof.
  unfold load_one. destruct (load_raw w raw) as [[t lbl]|e']; simpl.
  - destruct (strip _); [|discriminate]. intros [= <-]. now right.
  - intros [= <-]. now left.
Qed.

(** What fetching the text of a path raises, by the step that raises. *)
Lemma load_raw_path_raise raw e :
  is_url raw = false ->
  load_raw w raw = Raise e ->
  (exists le, resolve w raw = inl le /\ e = Raised le)
  \/ (exists path le,
        resolve w raw = inr path /\ path_exists w path = inl le /\ e = Raised le)
  \/ (exists path,
        resolve w raw = inr path /\ path_exists w path = inr false
        /\ e = input_not_found raw)
  \/ (exists path,
        resolve w raw = inr path /\ path_exists w path = inr true
        /\ load_file w path = Raise e).
Proof.
  intros Hu. rewrite (load_raw_path raw Hu).
  destruct (resolve w raw) as [le|path]; [intros [= <-]; left; eauto|].
  destruct (path_exists w path) as [le|[]] eqn:Hex.
  - intros [= <-]. right. left. eauto.
  - destruct (load_file w path) eqn:E; simpl; [discriminate|].
    intros [= <-]. right. right. right. eauto.
  - intros [= <-]. right. right. left. eauto.
Qed.

(** X9.  The input-not-found error, [FileNotFoundError] with the message
    [Input not found: ] and the input as it was given, is raised exactly
    for an input that is not a URL, whose path can be resolved and for
    which the existence test answers no; an exception of resolving the
    path or of the existence test itself is passed on as it is. *)
Theorem load_sources_input_not_found k raw :
  (load_sources w [raw] k
   = Raise (FileNotFoundError (lit "Input not found: " ++ raw)) <->
   is_url raw = false
   /\ exists path, resolve w raw = inr path /\ path_exists w path = inr false)
  /\ (forall le,
        is_url raw = false -> resolve w raw = inl le ->
        load_sources w [raw] k = Raise (Raised le))
  /\ (forall path le,
        is_url raw = false -> resolve w raw = inr path ->
        path_exists w path = inl le ->
        load_sources w [raw] k = Raise (Raised le)).
Proof.
  split; [|split].
  - rewrite load_sources_single_raise. fold (input_not_found raw). split.
    + intros H. apply load_one_raise in H as [H|H]; [|discriminate].
      destruct (is_url raw) eqn:Hu.
      * rewrite (load_raw_url raw Hu) in H.
        destruct (load_url w raw) eqn:E; simpl in H; [discriminate|].
        injection H as ->. apply load_url_raise in E as [[_ E]|(_ & le & E)];
          discriminate.
      * split; [reflexivity|].
        apply (load_raw_path_raise raw _ Hu) in H
          as [(le & _ & E)|[(path & le & _ & _ & E)|[(path & Hr & Hex & _)
             |(path & _ & _ & E)]]]; try discriminate.
        -- now exists path.
        -- apply load_file_raise in E as [(le & E)|[(_ & _ & E)|(_ & _ & E)]];
             discriminate.
    + intros (Hu & path & Hr & Hex). apply load_one_raise_fetch.
      now rewrite (load_raw_path raw Hu), Hr, Hex.
  - intros le Hu Hr. apply load_sources_single_raise, load_one_raise_fetch.
    now rewrite (load_raw_path raw Hu), Hr.
  - intros path le Hu Hr Hex. apply load_sources_single_raise, load_one_raise_fetch.
    now rewrite (load_raw_path raw Hu), Hr, Hex.
Qed.

Lemma needs_distinct :
  needs_requests <> needs_docx /\ needs_requests <> needs_pypdf2
  /\ needs_docx <> needs_pypdf2.
Proof. repeat split; intros H; vm_compute in H; discriminate H. Qed.

(** X10.  Each import guard of the readers raises its own error,
    [RuntimeError] with its own message, exactly when its package is
    missing and an input of its kind is met: [requests] and [bs4] for a
    URL; [docx] for a path that resolves to an existing file with
    extension [.docx], and [PyPDF2] for one with extension [.pdf], the
    extension being compared without regard to case. *)
Theorem load_sources_missing_package k raw :
  (load_sources w [raw] k
   = Raise (RuntimeError
              (lit "Fetching URLs requires installing requests and beautifulsoup4"))
   <-> is_url raw = true /\ has_requests_bs4 w = false)
  /\ (load_sources w [raw] k
      = Raise (RuntimeError (lit "Reading DOCX files requires installing python-docx"))
      <-> is_url raw = false
          /\ exists path,
               resolve w raw = inr path /\ path_exists w path = inr true
               /\ lower (path_suffix path) = lit ".docx" /\ has_docx w = false)
  /\ (load_sources w [raw] k
      = Raise (RuntimeError (lit "Reading PDF files requires installing PyPDF2"))
      <-> is_url raw = false
          /\ exists path,
               resolve w raw = inr path /\ path_exists w path = inr true
               /\ lower (path_suffix path) = lit ".pdf" /\ has_pypdf2 w = false).
Proof.
  fold needs_requests needs_docx needs_pypdf2.
  destruct needs_distinct as (D1 & D2 & D3).
  rewrite !load_sources_single_raise.
  split; [|split]; split.
  - intros H. apply load_one_raise in H as [H|H]; [|discriminate].
    destruct (is_url raw) eqn:Hu.
    + rewrite (load_raw_url raw Hu) in H.
      destruct (load_url w raw) eqn:E; simpl in H; [discriminate|].
      injection H as ->. apply load_url_raise in E as [[E1 _]|(_ & le & E)];
        [now split|discriminate].
    + apply (load_raw_path_raise raw _ Hu) in H
        as [(le & _ & E)|[(path & le & _ & _ & E)|[(path & _ & _ & E)
           |(path & _ & _ & E)]]]; try discriminate.
      apply load_file_raise in E as [(le & E)|[(_ & _ & E)|(_ & _ & E)]];
        [discriminate|now destruct D1|now destruct D2].
  - intros [Hu Hno]. apply load_one_raise_fetch.
    rewrite (load_raw_url raw Hu). unfold load_url. now rewrite Hno.
  - intros H. apply load_one_raise in H as [H|H]; [|discriminate].
    destruct (is_url raw) eqn:Hu.
    + rewrite (load_raw_url raw Hu) in H.
      destruct (load_url w raw) eqn:E; simpl in H; [discriminate|].
      injection H as ->. apply load_url_raise in E as [[_ E]|(_ & le & E)];
        [now destruct D1|discriminate].
    + split; [reflexivity|].
      apply (load_raw_path_raise raw _ Hu) in H
        as [(le & _ & E)|[(path & le & _ & _ & E)|[(path & _ & _ & E)
           |(path & Hr & Hex & E)]]]; try discriminate.
      apply load_file_raise in E as [(le & E)|[(E1 & E2 & _)|(_ & _ & E)]];
        [discriminate|now exists path|now destruct D3].
  - intros (Hu & path & Hr & Hex & Ext & Hno). apply load_one_raise_fetch.
    rewrite (load_raw_path raw Hu), Hr, Hex, (load_file_docx _ Ext).
    unfold read_docx. now rewrite Hno.
  - intros H. apply load_one_raise in H as [H|H]; [|discriminate].
    destruct (is_url raw) eqn:Hu.
    + rewrite (load_raw_url raw Hu) in H.
      destruct (load_url w raw) eqn:E; simpl in H; [discriminate|].
      injection H as ->. apply load_url_raise in E as [[_ E]|(_ & le & E)];
        [now destruct D2|discriminate].
    + split; [reflexivity|].
      apply (load_raw_path_raise raw _ Hu) in H
        as [(le & _ & E)|[(path & le & _ & _ & E)|[(path & _ & _ & E)
           |(path & Hr & Hex & E)]]]; try discriminate.
      apply load_file_raise in E as [(le & E)|[(_ & _ & E)|(E1 & E2 & _)]];
        [discriminate|symmetry in E; now destruct D3|now exists path].
  - intros (Hu & path & Hr & Hex & Ext & Hno). apply load_one_raise_fetch.
    rewrite (load_raw_path raw Hu), Hr, Hex, (load_file_pdf _ Ext).
    unfold read_pdf. now rewrite Hno.
Qed.

End Failures.

(** ** The readers of documents *)

Section Documents.

Variable w : World.

Implicit Types (path out : list N) (ps : list (option (list N)))
  (paragraphs : list (list N)) (table : list (list (list N))).

Lemma join_one sep (parts : list (list N)) i a :
  parts !! i = Some a -> exists pre post, join sep parts = pre ++ a ++ post.
Proof.
  intros Hi.
  destruct (list_elem_of_split_length parts i a Hi) as (l1 & l2 & -> & _).
  destruct (join_middle sep l1 a l2) as [pre ->]. rewrite join_cons. eauto.
Qed.

(** The loop of [read_pdf] appends the blocks of the pages that have text,
    numbered by their position in the document. *)
Lemma read_pdf_loop ps : forall index acc,
  foldl (fun pages '(index, page) =>
           let text := opt_or page [] in
           match strip text with
           | [] => pages
           | _ =>
               let header := lit "[Page " ++ str_of_nat index ++ lit "]" in
               pages ++ [header ++ [LF] ++ strip text]
           end)
    acc (enumerate index ps)
  = acc ++ page_blocks index ps.
Proof.
  induction ps as [|page ps IH]; intros index acc; simpl.
  - now rewrite app_nil_r.
  - rewrite IH. unfold page_block, page_header.
    destruct (strip (opt_or page [])); [reflexivity|].
    now rewrite <- !app_assoc.
Qed.

Lemma read_pdf_ok path ps :
  has_pypdf2 w = true -> pdf_pages w path = inr ps ->
  read_pdf w path = Ok (join [LF; LF] (page_blocks 1 ps)).
Proof.
  intros Hhas Hps. unfold read_pdf, mbind, result_bind, mret, result_ret.
  rewrite Hhas, Hps. simpl. now rewrite read_pdf_loop.
Qed.

Lemma page_blocks_app ps ps' : forall index,
  page_blocks index (ps ++ ps')
  = page_blocks index ps ++ page_blocks (index + length ps) ps'.
Proof.
  induction ps as [|page ps IH]; intros index; simpl.
  - now rewrite Nat.add_0_r.
  - rewrite IH, Nat.add_succ_r. simpl. now destruct (strip (opt_or page [])).
Qed.

Lemma page_blocks_cons_text index page ps :
  ~ page_blank page ->
  page_blocks index (page :: ps) = page_block index page :: page_blocks (S index) ps.
Proof.
  unfold page_blank. intros H. simpl. now destruct (strip (opt_or page [])).
Qed.

Lemma page_blocks_blank index ps :
  Forall page_blank ps -> page_blocks index ps = [].
Proof.
  intros H. revert index. induction H as [|page ps Hb _ IH]; intros index;
    [reflexivity|].
  simpl. unfold page_blank in Hb. rewrite Hb. apply IH.
Qed.

(** The block of a page with text sits in the list of blocks after the
    blocks of the pages before it. *)
Lemma page_blocks_lookup ps i page index :
  ps !! i = Some page -> ~ page_blank page ->
  page_blocks index ps !! length (page_blocks index (take i ps))
  = Some (page_block (index + i) page).
Proof.
  intros Hi Hne.
  destruct (list_elem_of_split_length ps i page Hi) as (l1 & l2 & -> & ->).
  rewrite take_app_length, page_blocks_app,
    (page_blocks_cons_text _ page _ Hne).
  now apply list_lookup_middle.
Qed.

Lemma page_blocks_take_lt ps i j page index :
  ps !! i = Some page -> ~ page_blank page -> (i < j)%nat ->
  (length (page_blocks index (take i ps))
   < length (page_blocks index (take j ps)))%nat.
Proof.
  intros Hi Hne Hij.
  destruct (list_elem_of_split_length ps i page Hi) as (l1 & l2 & -> & ->).
  rewrite take_app_length, take_app, take_ge by lia.
  replace (j - length l1)%nat with (S (j - S (length l1))) by lia.
  rewrite firstn_cons, page_blocks_app, (page_blocks_cons_text _ page _ Hne),
    length_app.
  simpl. lia.
Qed.

(** The blocks of [read_pdf] are those of the numbered pages that have
    text. *)
Lemma page_blocks_filter ps : forall index,
  page_blocks index ps
  = List.map (fun ip => lit "[Page " ++ str_of_nat (fst ip) ++ lit "]" ++ [LF]
                         ++ strip (opt_or (snd ip) []))
      (filter (fun ip => strip (opt_or (snd ip) []) <> []) (enumerate index ps)).
Proof.
  induction ps as [|page ps IH]; intros index; [reflexivity|].
  simpl. destruct (strip (opt_or page [])) eqn:E.
  - rewrite filter_cons_False by (simpl; rewrite E; intros H; now apply H).
    apply IH.
  - rewrite filter_cons_True by (simpl; rewrite E; discriminate).
    simpl. rewrite E, <- IH. unfold page_block, page_header.
    now rewrite E, <- !app_assoc.
Qed.

(** X11.  [read_pdf] returns, joined by a blank line and in the order of
    the document, one block for each page that has text and none for the
    others, the block of a page being [[Page i]] with [i] the position of
    the page in the whole document counted from 1, a line feed and the
    stripped text of the page.  So a page with text at position [i]
    appears with that number, a page with text that comes later appears
    strictly after it, and a document without any text gives the empty
    string. *)
Theorem read_pdf_page_numbers path ps :
  has_pypdf2 w = true ->
  pdf_pages w path = inr ps ->
  exists out,
    read_pdf w path = Ok out
    /\ out = join [LF; LF]
               (List.map (fun ip => lit "[Page " ++ str_of_nat (fst ip) ++ lit "]"
                                    ++ [LF] ++ strip (opt_or (snd ip) []))
                  (filter (fun ip => strip (opt_or (snd ip) []) <> [])
                     (enumerate 1 ps)))
    /\ (forall i page,
          ps !! i = Some page -> strip (opt_or page []) <> [] ->
          exists pos,
            occurs_at pos
              (lit "[Page " ++ str_of_nat (S i) ++ lit "]" ++ [LF]
               ++ strip (opt_or page [])) out)
    /\ (forall i j page page',
          ps !! i = Some page -> ps !! j = Some page' -> (i < j)%nat ->
          strip (opt_or page []) <> [] -> strip (opt_or page' []) <> [] ->
          exists pos pos',
            (pos < pos')%nat
            /\ occurs_at pos
                 (lit "[Page " ++ str_of_nat (S i) ++ lit "]" ++ [LF]
                  ++ strip (opt_or page [])) out
            /\ occurs_at pos'
                 (lit "[Page " ++ str_of_nat (S j) ++ lit "]" ++ [LF]
                  ++ strip (opt_or page' [])) out)
    /\ (Forall (fun page => strip (opt_or page []) = []) ps -> out = []).
Proof.
  intros Hhas Hps. exists (join [LF; LF] (page_blocks 1 ps)).
  split; [now apply read_pdf_ok|].
  split; [now rewrite page_blocks_filter|].
  assert (Hblock : forall i page,
             lit "[Page " ++ str_of_nat (S i) ++ lit "]" ++ [LF]
             ++ strip (opt_or page []) = page_block (1 + i) page).
  { intros i page. unfold page_block, page_header.
    now rewrite <- !app_assoc. }
  split; [|split].
  - intros i page Hi Hne. rewrite Hblock.
    pose proof (page_blocks_lookup ps i page 1 Hi Hne) as Hl.
    destruct (join_one [LF; LF] _ _ _ Hl) as (pre & post & ->).
    exists (length pre). apply occurs_at_app.
  - intros i j page page' Hi Hj Hij Hne Hne'. rewrite !Hblock.
    pose proof (page_blocks_lookup ps i page 1 Hi Hne) as Hl.
    pose proof (page_blocks_lookup ps j page' 1 Hj Hne') as Hl'.
    pose proof (page_blocks_take_lt ps i j page 1 Hi Hne Hij) as Hlt.
    destruct (join_two [LF; LF] _ _ _ _ _ Hl Hl' Hlt) as (pre & mid & post & ->).
    exists (length pre), (length (pre ++ page_block (1 + i) page ++ [LF; LF] ++ mid)).
    split; [|split].
    + rewrite !length_app. simpl. lia.
    + apply occurs_at_app.
    + replace (pre ++ page_block (1 + i) page ++ ([LF; LF] ++ mid)
               ++ page_block (1 + j) page' ++ post)
        with ((pre ++ page_block (1 + i) page ++ [LF; LF] ++ mid)
              ++ page_block (1 + j) page' ++ post)
        by now rewrite <- !app_assoc.
      apply occurs_at_app.
  - intros Hall. now rewrite page_blocks_blank.
Qed.

End Documents.

Section Texts.

Variable w : World.

Implicit Types (path out t : list N) (paragraphs : list (list N))
  (table : list (list (list N))).

Lemma read_docx_ok path paragraphs :
  has_docx w = true -> docx_paragraphs w path = inr paragraphs ->
  read_docx w path
  = Ok (join [LF] (List.map strip (filter (fun p => strip p <> []) paragraphs))).
Proof.
  intros Hhas Hps. unfold read_docx, mbind, result_bind, mret, result_ret.
  now rewrite Hhas, Hps.
Qed.

Lemma read_docx_ok_inv path out :
  read_docx w path = Ok out ->
  exists paragraphs,
    has_docx w = true /\ docx_paragraphs w path = inr paragraphs
    /\ out = join [LF] (List.map strip (filter (fun p => strip p <> []) paragraphs)).
Proof.
  unfold read_docx, mbind, result_bind, mret, result_ret.
  destruct (has_docx w); simpl; [|discriminate].
  destruct (docx_paragraphs w path) as [e|paragraphs]; simpl; [discriminate|].
  intros [= <-]. now exists paragraphs.
Qed.

(** Joined lines that are already stripped, non-empty and unbroken are a
    fixed point of the normaliser. *)
Lemma normalize_text_join_fixed (ls : list (list N)) :
  Forall (fun line => (line <> [] /\ unbroken line) /\ strip line = line) ls ->
  normalize_text (join [LF] ls) = join [LF] ls.
Proof.
  intros H. unfold normalize_text.
  rewrite splitlines_join
    by (eapply Forall_impl; [exact H|]; now intros line [H' _]).
  rewrite filter_map_strip_id; [reflexivity|].
  eapply Forall_impl; [exact H|]. now intros line [[Hne _] E].
Qed.

(** X12.  The text that [read_docx] returns for paragraphs without line
    boundaries inside is already normalised: the normaliser leaves it as
    it is. *)
Theorem read_docx_normalized path paragraphs out :
  docx_paragraphs w path = inr paragraphs ->
  Forall (Forall (fun c => islinebreak c = false)) paragraphs ->
  read_docx w path = Ok out ->
  normalize_text out = out.
Proof.
  intros Hps Hub Hout.
  apply read_docx_ok_inv in Hout as (ps' & _ & Hps' & ->).
  rewrite Hps in Hps'. injection Hps' as <-.
  apply normalize_text_join_fixed.
  apply Forall_forall. intros line Hin.
  apply list_elem_of_In, in_map_iff in Hin as (p & <- & Hin).
  apply list_elem_of_In, list_elem_of_filter in Hin as [Hne Hin].
  repeat split; [exact Hne| |apply strip_idem].
  apply Forall_strip. rewrite Forall_forall in Hub. now apply Hub.
Qed.

(** The loop of [read_csv] appends one line for each row. *)
Lemma read_csv_loop table : forall acc,
  foldl (fun rows row => rows ++ [join (lit ", ") (List.map strip row)]) acc table
  = acc ++ List.map row_line table.
Proof.
  induction table as [|row table IH]; intros acc; simpl.
  - now rewrite app_nil_r.
  - now rewrite IH, <- app_assoc.
Qed.

Lemma unbroken_join_comma (cells : list (list N)) :
  Forall unbroken cells -> unbroken (join (lit ", ") cells).
Proof.
  induction 1 as [|cell cells Hc _ IH]; [constructor|].
  rewrite join_cons. apply Forall_app. split; [exact Hc|].
  destruct cells; [constructor|].
  apply Forall_app. split; [now repeat constructor|exact IH].
Qed.

(** X13.  [read_csv] returns one line for each row that the reader yields,
    in the order of the rows, every line being the stripped cells of its
    row joined by a comma and a space; whatever ends the reading of the
    rows is raised as it is and no text is returned.  When no cell has a
    line boundary inside and no row gives an empty line, the lines of the
    text are exactly the lines of the rows. *)
Theorem read_csv_rows path :
  (forall table,
     csv_rows w path = inr table ->
     read_csv w path
     = Ok (join [LF]
             (List.map (fun row => join (lit ", ") (List.map strip row)) table))
     /\ (Forall (fun row =>
                   Forall (Forall (fun c => islinebreak c = false)) row
                   /\ join (lit ", ") (List.map strip row) <> []) table ->
         exists out,
           read_csv w path = Ok out
           /\ splitlines out
              = List.map (fun row => join (lit ", ") (List.map strip row)) table))
  /\ (forall e, csv_rows w path = inl e -> read_csv w path = Raise (Raised e)).
Proof.
  unfold read_csv, mbind, result_bind, mret, result_ret. split.
  - intros table ->. simpl. rewrite read_csv_loop. unfold row_line.
    split; [reflexivity|].
    intros H. eexists. split; [reflexivity|].
    apply splitlines_join. apply Forall_forall. intros line Hin.
    apply list_elem_of_In, in_map_iff in Hin as (row & <- & Hin).
    rewrite Forall_forall in H.
    destruct (H row ltac:(now apply list_elem_of_In)) as [Hub Hne].
    split; [exact Hne|]. apply unbroken_join_comma.
    apply Forall_forall. intros cell Hc.
    apply list_elem_of_In, in_map_iff in Hc as (cell0 & <- & Hc0).
    apply Forall_strip. rewrite Forall_forall in Hub.
    apply Hub. now apply list_elem_of_In.
  - now intros e ->.
Qed.

Lemma load_file_text path :
  suffix_in (lower (path_suffix path)) [".txt"; ".md"; ".rst"]%string = true ->
  load_file w path = read_text w path Strict.
Proof. intros H. unfold load_file. now rewrite H. Qed.

(** X14.  The fallback reader agrees with the reader of text files
    wherever that one succeeds: a file with a text extension that loads
    gives the same text under any unrecognised extension, its bytes being
    the same. *)
Theorem load_file_fallback_agrees path path' t :
  suffix_in (lower (path_suffix path)) [".txt"; ".md"; ".rst"]%string = true ->
  suffix_in (lower (path_suffix path')) recognized = false ->
  read_bytes w path' = read_bytes w path ->
  load_file w path = Ok t ->
  load_file w path' = Ok t.
Proof.
  intros Htxt Hother Hbytes.
  rewrite (load_file_text path Htxt), (load_file_unrecognized w path' Hother).
  unfold read_text, mbind, result_bind, mret, result_ret. rewrite Hbytes.
  destruct (read_bytes w path) as [e|bs]; simpl; [discriminate|].
  destruct (decode Strict bs) as [s|x] eqn:E; simpl; [|discriminate].
  now rewrite (decode_strict_ignore bs s E).
Qed.

End Texts.

(** ** The reply of the model *)

Section Reply.

Variable w : World.

Implicit Types (prompt model key reply content : list N) (resp : Completion).

(** [call_llm] once the package, the credential and the completion are
    there. *)
Lemma call_llm_completion prompt model key resp :
  has_openai w = true ->
  environ_api_key w = Some key -> key <> [] ->
  chat_completions_create w key model system_message prompt = inr resp ->
  call_llm w prompt model
  = ([ClientCreated key; ChatRequest model system_message prompt],
     match choices resp with
     | [] => Raise index_error
     | Some (Some (c :: content)) :: _ => Ok (strip (c :: content))
     | _ => Raise empty_reply
     end).
Proof.
  intros Hhas Hkey Hne Hresp. unfold call_llm. rewrite Hhas, Hkey. simpl.
  destruct key as [|c key]; [contradiction|]. simpl.
  unfold mbind, io_mbind, io_bind, io_event, io_lift, io_raise, mret, io_mret, io_ret.
  rewrite Hresp. simpl.
  now destruct (choices resp) as [|[[[|d content]|]|] ?].
Qed.

Lemma call_llm_ok_inv prompt model tr reply :
  call_llm w prompt model = (tr, Ok reply) ->
  exists key resp c content rest,
    has_openai w = true /\ environ_api_key w = Some key /\ key <> []
    /\ chat_completions_create w key model system_message prompt = inr resp
    /\ choices resp = Some (Some (c :: content)) :: rest
    /\ reply = strip (c :: content)
    /\ tr = [ClientCreated key; ChatRequest model system_message prompt].
Proof.
  intros H.
  destruct (call_llm_cases w prompt model)
    as [[_ E]|[(_ & _ & E)|(Hhas & key & r & Hkey & Hne & E)]];
    rewrite E in H; try discriminate.
  destruct (chat_completions_create w key model system_message prompt)
    as [e|resp] eqn:Hresp.
  - unfold call_llm in E. rewrite Hhas, Hkey in E. simpl in E.
    destruct key as [|c key]; [contradiction|]. simpl in E.
    unfold mbind, io_mbind, io_bind, io_event, io_lift, io_raise in E.
    rewrite Hresp in E. simpl in E. congruence.
  - rewrite (call_llm_completion prompt model key resp Hhas Hkey Hne Hresp) in E.
    rewrite <- E in H.
    destruct (choices resp) as [|[[[|c content]|]|] rest] eqn:Hc;
      try discriminate.
    injection H as <- <-. now exists key, resp, c, content, rest.
Qed.


(** X15.  A reply that [call_llm] returns has no white space at either
    end, and has cost exactly one client, made with the key of the
    environment, and one request, carrying the fixed system message and
    the prompt as it was given. *)
Theorem call_llm_reply_trimmed prompt model tr reply :
  call_llm w prompt model = (tr, Ok reply) ->
  strip reply = reply
  /\ exists key,
       environ_api_key w = Some key /\ key <> []
       /\ tr = [ClientCreated key; ChatRequest model system_message prompt].
Proof.
  intros H. apply call_llm_ok_inv in H
    as (key & resp & c & content & rest & _ & Hkey & Hne & _ & _ & -> & ->).
  split; [apply strip_idem|]. now exists key.
Qed.

(** X16.  With the package, the credential and a completion at hand,
    [call_llm] raises the empty-reply error exactly when the first choice
    has no message, no content or the empty content; a completion without
    choices raises an index error instead, and any other content is
    returned stripped, so that a content of white space only is returned
    as the empty string and not refused. *)
Theorem call_llm_empty_reply prompt model key resp :
  has_openai w = true ->
  environ_api_key w = Some key -> key <> [] ->
  chat_completions_create w key model system_message prompt = inr resp ->
  (snd (call_llm w prompt model)
   = Raise (RuntimeError (lit "LLM returned an empty response.")) <->
   exists choice rest,
     choices resp = choice :: rest
     /\ (choice = None \/ choice = Some None \/ choice = Some (Some [])))
  /\ (choices resp = [] -> snd (call_llm w prompt model) = Raise index_error)
  /\ (forall content rest,
        choices resp = Some (Some content) :: rest -> content <> [] ->
        snd (call_llm w prompt model) = Ok (strip content))
  /\ (forall content rest,
        choices resp = Some (Some content) :: rest -> content <> [] ->
        strip content = [] ->
        snd (call_llm w prompt model) = Ok []).
Proof.
  intros Hhas Hkey Hne Hresp.
  rewrite (call_llm_completion prompt model key resp Hhas Hkey Hne Hresp).
  cbn [snd]. fold empty_reply. repeat split.
  - destruct (choices resp) as [|[[[|c content]|]|] rest]; try discriminate;
      intros _; eexists _, rest; (split; [reflexivity|]); auto.
  - intros (choice & rest & -> & [->|[->| ->]]); reflexivity.
  - now intros ->.
  - intros content rest -> Hc. now destruct content.
  - intros content rest -> Hc E. destruct content; [contradiction|]. now rewrite E.
Qed.

End Reply.

(** ** A whole run *)

Section Whole.

Variable w : World.

Implicit Types (argv : option (list (list N))) (args : Args) (e : exception)
  (text reply : list N) (out : option (list N)).






End Whole.

(** ** The size of the prompt *)

Section Size.

Implicit Types (q : option (list N)) (sources : list SourceContent)
  (parts : list (list N)) (sep : list N).

Lemma length_join sep parts :
  length (join sep parts)
  = (total_length parts + length sep * (length parts - 1))%nat.
Proof.
  induction parts as [|p parts IH]; [simpl; lia|].
  rewrite join_cons. destruct parts as [|p' parts].
  - simpl. rewrite app_nil_r. lia.
  - rewrite !length_app, IH. simpl. lia.
Qed.

Lemma total_length_cons (p : list N) parts :
  total_length (p :: parts) = (length p + total_length parts)%nat.
Proof. reflexivity. Qed.

Lemma length_block i s :
  length (block i s)
  = (10 + length (str_of_nat i) + length (label s) + length (text s))%nat.
Proof. rewrite block_unfold, !length_app. simpl. lia. Qed.

Lemma total_length_blocks sources : forall start,
  total_length (imap (fun i s => block (start + i) s) sources)
  = sum_list_with (fun '(i, s) =>
                     (10 + length (str_of_nat i) + length (label s)
                      + length (text s))%nat) (enumerate start sources).
Proof.
  induction sources as [|s sources IH]; intros start; [reflexivity|].
  rewrite imap_cons, total_length_cons, Nat.add_0_r, length_block.
  cbn [enumerate sum_list_with]. f_equal.
  rewrite <- IH. f_equal. apply imap_ext. intros i x _. simpl.
  now rewrite Nat.add_succ_r.
Qed.

Lemma sum_blocks_bound k sources : forall start,
  Forall (fun s => (length (text s) <= k)%nat) sources ->
  (sum_list_with (fun '(i, s) =>
                    (10 + length (str_of_nat i) + length (label s)
                     + length (text s))%nat) (enumerate start sources)
   <= sum_list_with (fun '(i, s) =>
                       (10 + length (str_of_nat i) + length (label s))%nat)
        (enumerate start sources)
      + k * length sources)%nat.
Proof.
  intros start H. revert start.
  induction H as [|s sources Hs _ IH]; intros start;
    cbn [enumerate sum_list_with length]; [lia|].
  specialize (IH (S start)). lia.
Qed.

(** X19.  The prompt has exactly the length of the instruction, the eleven
    characters around [Context:], the blocks (ten characters, the digits
    of the ordinal, the label and the text each) and seven characters for
    each delimiter; so when no text is longer than [k], the prompt exceeds
    the instruction, the labels and the fixed parts by at most [k]
    characters for each source. *)
Theorem build_prompt_length q sources :
  length (build_prompt q sources)
  = (length (opt_or q default_instruction) + 11
     + sum_list_with (fun '(i, s) =>
                        (10 + length (str_of_nat i) + length (label s)
                         + length (text s))%nat) (enumerate 1 sources)
     + 7 * (length sources - 1))%nat
  /\ forall k,
       Forall (fun s => (length (text s) <= k)%nat) sources ->
       (length (build_prompt q sources)
        <= length (opt_or q default_instruction) + 11
           + sum_list_with (fun '(i, s) =>
                              (10 + length (str_of_nat i) + length (label s))%nat)
               (enumerate 1 sources)
           + k * length sources
           + 7 * (length sources - 1))%nat.
Proof.
  assert (E : length (build_prompt q sources)
              = (length (opt_or q default_instruction) + 11
                 + sum_list_with (fun '(i, s) =>
                        (10 + length (str_of_nat i) + length (label s)
                         + length (text s))%nat) (enumerate 1 sources)
                 + 7 * (length sources - 1))%nat).
  { rewrite build_prompt_layout. unfold layout.
    rewrite !length_app, length_join, length_imap.
    change (imap (fun i s => block (S i) s) sources)
      with (imap (fun i s => block (1 + i) s) sources).
    rewrite (total_length_blocks sources 1). simpl length. lia. }
  split; [exact E|].
  intros k H. rewrite E. pose proof (sum_blocks_bound k sources 1 H). lia.
Qed.

End Size.

(** ** The further properties at work *)

Lemma extraction_empty_iff_all_space_witness :
  load_sources Demo.offline [lit "blank.txt"] 100
  = Raise (ValueError (lit "No textual content extracted from " ++ lit "blank.txt")).
Proof.
  refine (proj2 (extraction_empty_iff_all_space Demo.offline 100 (lit "blank.txt")
                   (lit "   " ++ [LF; 9; LF]) (lit "/work/blank.txt") _ _) _).
  - lia.
  - vm_compute. reflexivity.
  - repeat constructor.
Defined.

Lemma load_sources_app_witness :
  load_sources Demo.offline ([lit "notes.txt"] ++ [lit "blob.bin"]) 100
  = Ok ([{| label := lit "/work/notes.txt"; text := lit "Hello" ++ [LF] ++ lit "World" |}]
        ++ [{| label := lit "/work/blob.bin"; text := lit "AB" |}])
  /\ length [{| label := lit "/work/notes.txt";
                text := lit "Hello" ++ [LF] ++ lit "World" |}]
     = length [lit "notes.txt"].
Proof.
  split.
  - apply (proj1 (load_sources_app Demo.offline [lit "notes.txt"] [lit "blob.bin"]
                    100 _)).
    do 2 eexists. repeat split; vm_compute; reflexivity.
  - apply (proj2 (load_sources_app Demo.offline [lit "notes.txt"] [] 100 _)).
    vm_compute. reflexivity.
Defined.

Lemma load_sources_first_failure_witness :
  load_sources Demo.offline [lit "notes.txt"; lit "absent.txt"; lit "blank.txt"] 100
  = Raise (FileNotFoundError (lit "Input not found: absent.txt")).
Proof.
  apply (proj2 (load_sources_first_failure Demo.offline _ 100 _)).
  exists [lit "notes.txt"], (lit "absent.txt"), [lit "blank.txt"].
  eexists. repeat split; vm_compute; reflexivity.
Defined.

Lemma load_sources_negative_bound_witness :
  load_sources Demo.offline [lit "notes.txt"] (-20)
  = Raise (extraction_empty (lit "notes.txt"))
  /\ load_sources Demo.offline [lit "notes.txt"] (-3)
     = Ok [{| label := lit "/work/notes.txt";
              text := lit "Hello" ++ [LF] ++ lit "Wo" |}].
Proof.
  split.
  - refine (proj1 (load_sources_negative_bound Demo.offline (-20) (lit "notes.txt")
                     (lit "Hello" ++ [LF; LF] ++ lit "World")
                     (lit "/work/notes.txt") _ _) _).
    + lia.
    + vm_compute. reflexivity.
    + vm_compute. discriminate.
  - refine (proj2 (load_sources_negative_bound Demo.offline (-3) (lit "notes.txt")
                     (lit "Hello" ++ [LF; LF] ++ lit "World")
                     (lit "/work/notes.txt") _ _) _).
    + lia.
    + vm_compute. reflexivity.
    + vm_compute. reflexivity.
Defined.

Lemma load_sources_text_prefix_witness :
  Forall2 (fun raw sc =>
             exists t, load_raw Demo.offline raw = Ok (t, label sc)
                       /\ text sc `prefix_of` normalize_text t
                       /\ ((0 <= len (normalize_text t) <= 5)%Z ->
                           text sc = normalize_text t))
    [lit "notes.txt"]
    [{| label := lit "/work/notes.txt"; text := lit "Hello" |}].
Proof.
  apply (load_sources_text_prefix Demo.offline [lit "notes.txt"] 5).
  vm_compute. reflexivity.
Defined.

Lemma load_sources_input_not_found_witness :
  load_sources Demo.offline [lit "absent.txt"] 100
  = Raise (FileNotFoundError (lit "Input not found: " ++ lit "absent.txt"))
  /\ load_sources Demo.offline [lit "~nobody/x.txt"] 100
     = Raise (Raised Demo.no_home).
Proof.
  split.
  - apply (proj2 (proj1 (load_sources_input_not_found Demo.offline 100
                           (lit "absent.txt")))).
    split; [reflexivity|]. exists (lit "/work/absent.txt"). split; reflexivity.
  - apply (proj1 (proj2 (load_sources_input_not_found Demo.offline 100
                           (lit "~nobody/x.txt")))); reflexivity.
Defined.

Lemma load_sources_missing_package_witness :
  load_sources Demo.offline [lit "https://example.org/"] 100 = Raise needs_requests
  /\ load_sources Demo.offline [lit "~nobody/x.docx"] 100 <> Raise needs_docx.
Proof.
  split.
  - apply (proj2 (proj1 (load_sources_missing_package Demo.offline 100
                           (lit "https://example.org/")))).
    split; reflexivity.
  - intros H.
    apply (proj1 (proj1 (proj2 (load_sources_missing_package Demo.offline 100
                                  (lit "~nobody/x.docx"))))) in H
      as (_ & path & Hr & _).
    discriminate Hr.
Defined.

Lemma read_pdf_page_numbers_witness :
  exists out,
    read_pdf Shelf.world (lit "/work/REPORT.PDF") = Ok out
    /\ exists pos pos',
         (pos < pos')%nat
         /\ occurs_at pos (lit "[Page 1]" ++ [LF] ++ lit "One") out
         /\ occurs_at pos' (lit "[Page 4]" ++ [LF] ++ lit "Four") out.
Proof.
  destruct (read_pdf_page_numbers Shelf.world (lit "/work/REPORT.PDF")
              [Some (lit "One"); Some (lit "  "); None; Some (lit " Four ")]
              eq_refl eq_refl) as (out & Hout & _ & _ & Hord & _).
  exists out. split; [exact Hout|].
  apply (Hord 0%nat 3%nat (Some (lit "One")) (Some (lit " Four ")));
    [reflexivity|reflexivity|lia|vm_compute; discriminate|vm_compute; discriminate].
Defined.

Lemma read_docx_normalized_witness :
  normalize_text (lit "Title" ++ [LF] ++ lit "Body") = lit "Title" ++ [LF] ++ lit "Body".
Proof.
  apply (read_docx_normalized Shelf.world (lit "/work/letter.docx")
           [lit " Title "; lit "   "; lit "Body"]).
  - reflexivity.
  - repeat constructor.
  - vm_compute. reflexivity.
Defined.

Lemma read_csv_rows_witness :
  read_csv Shelf.world (lit "/work/table.csv")
  = Ok (lit "a, b" ++ [LF] ++ lit "c, d")
  /\ exists out,
       read_csv Shelf.world (lit "/work/table.csv") = Ok out
       /\ splitlines out = [lit "a, b"; lit "c, d"].
Proof.
  destruct (proj1 (read_csv_rows Shelf.world (lit "/work/table.csv"))
              [[lit "a"; lit " b"]; [lit "c"; lit "d "]] eq_refl) as [H1 H2].
  split; [exact H1|].
  apply H2. repeat constructor; discriminate.
Defined.

Lemma load_file_fallback_agrees_witness :
  load_file Shelf.world (lit "/work/notes.bak")
  = Ok (lit "Hello" ++ [LF; LF] ++ lit "World").
Proof.
  apply (load_file_fallback_agrees Shelf.world (lit "/work/notes.txt")
           (lit "/work/notes.bak")); vm_compute; reflexivity.
Defined.

Lemma call_llm_reply_trimmed_witness :
  strip (lit "Two greetings.") = lit "Two greetings."
  /\ exists key,
       environ_api_key Shelf.world = Some key /\ key <> []
       /\ [ClientCreated (lit "sk-demo");
           ChatRequest (lit "gpt-4o-mini") system_message (lit "p")]
          = [ClientCreated key; ChatRequest (lit "gpt-4o-mini") system_message (lit "p")].
Proof.
  apply (call_llm_reply_trimmed Shelf.world (lit "p") (lit "gpt-4o-mini")).
  vm_compute. reflexivity.
Defined.

Lemma call_llm_empty_reply_witness :
  snd (call_llm Shelf.world (lit "p") (lit "gpt-4o-mini"))
  = Ok (strip (lit " Two greetings. ")).
Proof.
  refine (proj1 (proj2 (proj2 (call_llm_empty_reply Shelf.world (lit "p")
                                 (lit "gpt-4o-mini") (lit "sk-demo")
                                 {| choices := [Some (Some (lit " Two greetings. "))] |}
                                 eq_refl eq_refl _ eq_refl)))
            (lit " Two greetings. ") [] eq_refl _); discriminate.
Defined.



Lemma build_prompt_length_witness :
  (length (build_prompt None [{| label := lit "A"; text := lit "T" |}])
   <= length (opt_or None default_instruction) + 11
      + sum_list_with (fun '(i, s) =>
                         (10 + length (str_of_nat i) + length (label s))%nat)
          (enumerate 1 [{| label := lit "A"; text := lit "T" |}])
      + 5 * length [{| label := lit "A"; text := lit "T" |}]
      + 7 * (length [{| label := lit "A"; text := lit "T" |}] - 1))%nat.
Proof.
  apply (proj2 (build_prompt_length None [{| label := lit "A"; text := lit "T" |}]) 5%nat).
  constructor; [simpl; lia|constructor].
Defined.
